(** * up163cloud: the bulk uploader of [main.py] (class [NcmUploader])

    A shallow embedding of the uploader: the Python values it handles, the
    per-song workflow with its remote calls and ledger writes, the resume
    computation over the failure ledger, the catalog read and the
    semaphore-gated run of all workflows. *)

From Stdlib Require Import ZArith List String Ascii Bool Lia Arith.
Import ListNotations.

Set Implicit Arguments.
Set Warnings "-register-all".

(** ** Python values *)

(** Values decoded from JSON ([json.load], [response.json()]).  Numbers are
    restricted to integers.  An object is the list of its bindings; a decoded
    [dict] holds each key once, and lookup takes the binding of the key. *)
Inductive json : Type :=
| JNull
| JBool (b : bool)
| JInt (z : Z)
| JStr (s : string)
| JArr (items : list json)
| JObj (fields : list (string * json)).

(** The subclasses of Python's [Exception] that the uploader can meet.
    [TransportError] stands for what [aiohttp] and [requests] raise when a
    request cannot be carried out or its body cannot be read.  What is
    raised outside of [Exception] (a cancellation, a keyboard interrupt) is
    not modelled. *)
Inductive exn : Type :=
| KeyError
| IndexError
| TypeError
| ValueError
| AttributeError
| JSONDecodeError
| UnicodeDecodeError
| OSError
| TransportError.

Inductive result (A : Type) : Type :=
| Ok (a : A)
| Exc (e : exn).
Arguments Ok {A} a.
Arguments Exc {A} e.

Module Py.

Fixpoint assoc (key : string) (fields : list (string * json)) : option json :=
  match fields with
  | [] => None
  | (k, v) :: rest => if String.eqb k key then Some v else assoc key rest
  end.

(** [d.get(key, default)] *)
Definition get (d : json) (key : string) (default : json) : result json :=
  match d with
  | JObj fields =>
      match assoc key fields with
      | Some v => Ok v
      | None => Ok default
      end
  | _ => Exc AttributeError
  end.

(** [d[key]] with a string key *)
Definition item (d : json) (key : string) : result json :=
  match d with
  | JObj fields =>
      match assoc key fields with
      | Some v => Ok v
      | None => Exc KeyError
      end
  | _ => Exc TypeError
  end.

(** [d[0]] *)
Definition item0 (d : json) : result json :=
  match d with
  | JArr [] => Exc IndexError
  | JArr (x :: _) => Ok x
  | JStr EmptyString => Exc IndexError
  | JStr (String c _) => Ok (JStr (String c EmptyString))
  | JObj _ => Exc KeyError
  | _ => Exc TypeError
  end.

(** truth value, as tested by [if v:] *)
Definition truthy (v : json) : bool :=
  match v with
  | JNull => false
  | JBool b => b
  | JInt z => negb (Z.eqb z 0)
  | JStr s => negb (String.eqb s EmptyString)
  | JArr items => match items with [] => false | _ => true end
  | JObj fields => match fields with [] => false | _ => true end
  end.

(** [len(v)]; of a string, its bytes (the uploader compares it to 0 only) *)
Definition len (v : json) : result nat :=
  match v with
  | JStr s => Ok (String.length s)
  | JArr items => Ok (List.length items)
  | JObj fields => Ok (List.length fields)
  | _ => Exc TypeError
  end.

(** the elements of [for x in v] *)
Definition iter (v : json) : result (list json) :=
  match v with
  | JArr items => Ok items
  | JObj fields => Ok (map (fun kv => JStr (fst kv)) fields)
  | JStr s =>
      Ok (map (fun c => JStr (String c EmptyString)) (list_ascii_of_string s))
  | _ => Exc TypeError
  end.

(** [v == n] for an integer literal [n] *)
Definition eq_int (v : json) (n : Z) : bool :=
  match v with
  | JInt z => Z.eqb z n
  | JBool b => Z.eqb (if b then 1 else 0) n
  | _ => false
  end.

(** ASCII whitespace, as removed by [str.strip()]; the whitespace beyond
    ASCII that it removes too is not modelled *)
Definition is_space (c : ascii) : bool :=
  let n := nat_of_ascii c in
  ((9 <=? n) && (n <=? 13) || (28 <=? n) && (n <=? 32))%nat.

Fixpoint lstrip (cs : list ascii) : list ascii :=
  match cs with
  | c :: rest => if is_space c then lstrip rest else cs
  | [] => []
  end.

Definition strip (s : string) : string :=
  string_of_list_ascii
    (rev (lstrip (rev (lstrip (list_ascii_of_string s))))).

Definition digit_of (c : ascii) : option Z :=
  let n := nat_of_ascii c in
  if ((48 <=? n) && (n <=? 57))%nat then Some (Z.of_nat (n - 48)) else None.

(** decimal digits, single underscores allowed between two digits *)
Fixpoint digits (acc : Z) (after_digit : bool) (cs : list ascii) : option Z :=
  match cs with
  | [] => if after_digit then Some acc else None
  | c :: rest =>
      match digit_of c with
      | Some d => digits (10 * acc + d) true rest
      | None =>
          if Ascii.eqb c "_"%char && after_digit
          then digits acc false rest
          else None
      end
  end.

(** the whitespace that [int()] skips around an ASCII numeral: tab to
    carriage return, and the space *)
Definition is_int_space (c : ascii) : bool :=
  let n := nat_of_ascii c in
  ((9 <=? n) && (n <=? 13) || (n =? 32))%nat.

Fixpoint lskip (cs : list ascii) : list ascii :=
  match cs with
  | c :: rest => if is_int_space c then lskip rest else cs
  | [] => []
  end.

Definition trimmed (s : string) : list ascii :=
  rev (lskip (rev (lskip (list_ascii_of_string s)))).

(** [int(s)] on an ASCII string: surrounding whitespace, an optional sign,
    decimal digits.  Digits beyond ASCII and the limit on the number of
    digits are not modelled. *)
Definition int_of_str (s : string) : result Z :=
  let body :=
    match trimmed s with
    | c :: rest =>
        if Ascii.eqb c "-"%char then option_map Z.opp (digits 0 false rest)
        else if Ascii.eqb c "+"%char then digits 0 false rest
        else digits 0 false (c :: rest)
    | [] => None
    end in
  match body with
  | Some z => Ok z
  | None => Exc ValueError
  end.

(** [int(v)] *)
Definition int (v : json) : result Z :=
  match v with
  | JInt z => Ok z
  | JBool b => Ok (if b then 1 else 0)%Z
  | JStr s => int_of_str s
  | _ => Exc TypeError
  end.

(** the character of a decimal digit *)
Definition digit_char (d : Z) : ascii := ascii_of_nat (48 + Z.to_nat d).

(** the decimal digits of [n >= 0] put before [acc], most significant
    first; [fuel] bounds the number of digits *)
Fixpoint decimal (fuel : nat) (n : Z) (acc : list ascii) : list ascii :=
  match fuel with
  | O => acc
  | S fuel' =>
      let acc' := digit_char (n mod 10) :: acc in
      if (n <? 10)%Z then acc' else decimal fuel' (n / 10) acc'
  end.

(** [str(n)] on an integer: its decimal digits, after a minus sign when it
    is negative *)
Definition str_int (n : Z) : string :=
  let body := decimal (S (Z.to_nat (Z.log2 (Z.abs n)))) (Z.abs n) [] in
  string_of_list_ascii (if (n <? 0)%Z then "-"%char :: body else body).

End Py.

(** ** Song descriptors, remote calls, console messages *)

(** The dict built by [get_all_song_info], with the two entries that
    [_try_to_upload_one_song] adds after the detail lookup. *)
Record song_info : Type := {
  id : json;
  size : json;
  ext : json;
  bitrate : json;
  md5 : json;
  artist : option json;
  album : option json
}.

Definition with_details (s : song_info) (song_artist song_album : json)
  : song_info :=
  {| id := id s; size := size s; ext := ext s; bitrate := bitrate s;
     md5 := md5 s; artist := Some song_artist; album := Some song_album |}.

(** The three endpoints of the remote service, with the song-specific part
    of the request (the credential and the timestamp are left out). *)
Inductive call : Type :=
| CloudDetail (song_id : Z)          (* /user/cloud/detail?id= *)
| SongDetail (song_ids : list Z)     (* /song/detail?ids= *)
| CloudImport (s : song_info).       (* /cloud/import?id=...&artist=... *)

(** What fetching and decoding a JSON document comes to: the fetch or the
    decoding raises [e]; the body is not JSON ([json.JSONDecodeError]); or
    the decoded value. *)
Inductive decoded : Type :=
| Fails (e : exn)
| NotJson
| Json (j : json).

(** One constructor per [print] of the source. *)
Inductive msg : Type :=
| MsgUploadException (e : exn)
| MsgImporting (song_id : Z)
| MsgAlreadyUploaded
| MsgSongDetail (song_name song_artist song_album : json)
| MsgCatalogFormat
| MsgDetailUrl (song_ids : list Z)
| MsgDetailFailed (message : json)
| MsgDetailNotJson
| MsgCloudDetailFailed (message : json)
| MsgCloudNotJson
| MsgImportOk (song_id : json)
| MsgImportFailed (song_id failed : json)
| MsgFileExists (song_id : json)
| MsgNoFailureRecord
| MsgResumeAt (uploaded : nat) (song_id : json)
| MsgNoMatch.

Inductive event : Type :=
| EPrint (m : msg)
| ECall (c : call)
| EAppend (song_id : json).   (* one line written to failed_ids.txt *)

(** ** Programs with effects

    A method body is a tree of effects.  [Request] is a blocking call
    ([requests.get]); [Await] is a call made with [aiohttp], where the
    coroutine is suspended until the reply is there; one [Await] stands
    for the whole exchange, within which the source awaits more than once
    (the request, then the body).  Every call comes to an answer, a
    document or an exception, and the write to the ledger does not
    fail. *)
Inductive prog (A : Type) : Type :=
| Ret (a : A)
| Raise (e : exn)
| Output (m : msg) (k : prog A)
| AppendLedger (song_id : json) (k : prog A)
| Request (c : call) (k : decoded -> prog A)
| Await (c : call) (k : decoded -> prog A).
Arguments Raise {A} e.

Fixpoint bind {A B : Type} (p : prog A) (f : A -> prog B) : prog B :=
  match p with
  | Ret a => f a
  | Raise e => Raise e
  | Output m k => Output m (bind k f)
  | AppendLedger v k => AppendLedger v (bind k f)
  | Request c k => Request c (fun r => bind (k r) f)
  | Await c k => Await c (fun r => bind (k r) f)
  end.

(** [try: p  except Exception as e: h e] *)
Fixpoint try_except {A : Type} (p : prog A) (h : exn -> prog A) : prog A :=
  match p with
  | Ret a => Ret a
  | Raise e => h e
  | Output m k => Output m (try_except k h)
  | AppendLedger v k => AppendLedger v (try_except k h)
  | Request c k => Request c (fun r => try_except (k r) h)
  | Await c k => Await c (fun r => try_except (k r) h)
  end.

Definition lift {A : Type} (r : result A) : prog A :=
  match r with
  | Ok a => Ret a
  | Exc e => Raise e
  end.

Definition print (m : msg) : prog unit := Output m (Ret tt).

Declare Scope prog_scope.
Delimit Scope prog_scope with prog.
Notation "x <- p ;; q" := (bind p (fun x => q))
  (at level 61, p at next level, right associativity) : prog_scope.
Notation "p ;; q" := (bind p (fun _ => q))
  (at level 61, right associativity) : prog_scope.
Open Scope prog_scope.

(** Running a program to its end under an oracle for the remote replies:
    the result and the events in the order they happen. *)
Fixpoint exec {A : Type} (o : call -> decoded) (p : prog A)
  : result A * list event :=
  match p with
  | Ret a => (Ok a, [])
  | Raise e => (Exc e, [])
  | Output m k => let (r, t) := exec o k in (r, EPrint m :: t)
  | AppendLedger v k => let (r, t) := exec o k in (r, EAppend v :: t)
  | Request c k => let (r, t) := exec o (k (o c)) in (r, ECall c :: t)
  | Await c k => let (r, t) := exec o (k (o c)) in (r, ECall c :: t)
  end.

(** The remote calls and the ledger appends of a trace. *)
Fixpoint calls (t : list event) : list call :=
  match t with
  | [] => []
  | ECall c :: rest => c :: calls rest
  | _ :: rest => calls rest
  end.

Fixpoint appended (t : list event) : list json :=
  match t with
  | [] => []
  | EAppend v :: rest => v :: appended rest
  | _ :: rest => appended rest
  end.

(** ** The per-song workflow *)

(** [_save_failed_id]: the line [f"{song_id}\n"] appended to
    failed_ids.txt *)
Definition _save_failed_id (song_id : json) : prog unit :=
  AppendLedger song_id (Ret tt).

(** [get_song_details]: the lookup is made with [requests], it blocks. *)
Definition get_song_details (song_ids : list Z) : prog json :=
  print (MsgDetailUrl song_ids) ;;
  Request (SongDetail song_ids) (fun response =>
    match response with
    | Fails e => Raise e
    | NotJson => print MsgDetailNotJson ;; Ret (JArr [])
    | Json response_data =>
        code <- lift (Py.get response_data "code" JNull) ;;
        if Py.eq_int code 200
        then lift (Py.get response_data "songs" (JArr []))
        else
          message <- lift (Py.get response_data "message" JNull) ;;
          print (MsgDetailFailed message) ;;
          Ret (JArr [])
    end).

(** [_has_uploaded] *)
Definition _has_uploaded (song_id : Z) : prog bool :=
  Await (CloudDetail song_id) (fun response =>
    match response with
    | Fails e => Raise e
    | NotJson => print MsgCloudNotJson ;; Ret false
    | Json response_data =>
        code <- lift (Py.get response_data "code" JNull) ;;
        present <-
          (if Py.eq_int code 200
           then
             data <- lift (Py.item response_data "data") ;;
             n <- lift (Py.len data) ;;
             Ret (negb (Nat.eqb n 0))
           else Ret false) ;;
        if (present : bool) then Ret true
        else
          message <- lift (Py.get response_data "message" JNull) ;;
          print (MsgCloudDetailFailed message) ;;
          Ret false
    end).

(** the test [f["code"] == -100] over the elements of [failed], stopping at
    the first element that fails it, as [all] does *)
Fixpoint all_file_exists (failed : list json) : result bool :=
  match failed with
  | [] => Ok true
  | f :: rest =>
      match Py.item f "code" with
      | Ok code => if Py.eq_int code (-100) then all_file_exists rest else Ok false
      | Exc e => Exc e
      end
  end.

Definition entry {A : Type} (field : option A) : result A :=
  match field with
  | Some v => Ok v
  | None => Exc KeyError
  end.

(** [response_data.get("data", {}).get(key, default)] *)
Definition data_field (response_data : json) (key : string) (default : json)
  : result json :=
  match Py.get response_data "data" (JObj []) with
  | Ok data => Py.get data key default
  | Exc e => Exc e
  end.

(** [all(f["code"] == -100 for f in failed)] *)
Definition only_file_exists (failed : json) : result bool :=
  match Py.iter failed with
  | Ok items => all_file_exists items
  | Exc e => Exc e
  end.

(** [_send_upload_request] *)
Definition _send_upload_request (song_info : song_info) : prog unit :=
  let song_id := id song_info in
  _ <- lift (entry (artist song_info)) ;;
  _ <- lift (entry (album song_info)) ;;
  Await (CloudImport song_info) (fun response =>
    response_data <-
      match response with
      | Fails e => Raise e
      | NotJson => Raise JSONDecodeError
      | Json j => Ret j
      end ;;
    success_songs <- lift (data_field response_data "successSongs" (JArr [])) ;;
    failed <- lift (data_field response_data "failed" (JArr [])) ;;
    if Py.truthy success_songs
    then print (MsgImportOk song_id)
    else
      print (MsgImportFailed song_id failed) ;;
      file_exists <- lift (only_file_exists failed) ;;
      if (file_exists : bool)
      then print (MsgFileExists song_id) ;; _save_failed_id song_id
      else Ret tt).

(** [_try_to_upload_one_song] *)
Definition _try_to_upload_one_song (song_info : song_info) : prog unit :=
  song_id <- lift (Py.int (id song_info)) ;;
  print (MsgImporting song_id) ;;
  uploaded <- _has_uploaded song_id ;;
  if (uploaded : bool)
  then print MsgAlreadyUploaded
  else
    song_details <- get_song_details [song_id] ;;
    if Py.truthy song_details
    then
      first <- lift (Py.item0 song_details) ;;
      song_name <- lift (Py.item first "name") ;;
      first <- lift (Py.item0 song_details) ;;
      ar <- lift (Py.item first "ar") ;;
      ar0 <- lift (Py.item0 ar) ;;
      song_artist <- lift (Py.item ar0 "name") ;;
      first <- lift (Py.item0 song_details) ;;
      al <- lift (Py.item first "al") ;;
      song_album <- lift (Py.item al "name") ;;
      print (MsgSongDetail song_name song_artist song_album) ;;
      _send_upload_request (with_details song_info song_artist song_album)
    else Ret tt.

(** [_upload_one_song]: the workflow boundary *)
Definition _upload_one_song (song_info : song_info) : prog unit :=
  try_except (_try_to_upload_one_song song_info)
    (fun e => print (MsgUploadException e) ;; _save_failed_id (id song_info)).

(** ** The failure ledger and the resume computation *)

(** The file failed_ids.txt as the uploader finds it: [None] when
    [os.path.exists] is false, otherwise the lines that iterating the open
    file yields, in order. *)
Definition ledger_file : Type := option (list string).

(** [ids[-1]] *)
Definition last_item {A : Type} (l : list A) : result A :=
  match rev l with
  | x :: _ => Ok x
  | [] => Exc IndexError
  end.

(** [_get_last_failed_id] *)
Definition _get_last_failed_id (failed_ids_txt : ledger_file)
  : result (option Z) :=
  match failed_ids_txt with
  | None => Ok None
  | Some lines =>
      let ids := map Py.strip lines in
      match last_item ids with
      | Ok line =>
          match Py.int_of_str line with
          | Ok n => Ok (Some n)
          | Exc e => Exc e
          end
      | Exc e => Exc e
      end
  end.

(** the [for index, song_info in enumerate(song_info_list)] loop of
    [get_resume_song_info_list], from position [index] on *)
Fixpoint resume_scan (song_info_list : list song_info) (last_failed_id : Z)
    (index : nat) (rest : list song_info) : prog (list song_info) :=
  match rest with
  | [] => print MsgNoMatch ;; Ret song_info_list
  | song_info :: rest' =>
      n <- lift (Py.int (id song_info)) ;;
      if Z.eqb n last_failed_id
      then
        print (MsgResumeAt (index + 1) (id song_info)) ;;
        Ret (skipn (index + 1) song_info_list)
      else resume_scan song_info_list last_failed_id (S index) rest'
  end.

(** [get_resume_song_info_list] *)
Definition get_resume_song_info_list (failed_ids_txt : ledger_file)
    (song_info_list : list song_info) : prog (list song_info) :=
  last_failed_id <- lift (_get_last_failed_id failed_ids_txt) ;;
  match last_failed_id with
  | None => print MsgNoFailureRecord ;; Ret song_info_list
  | Some last_failed_id =>
      resume_scan song_info_list last_failed_id 0 song_info_list
  end.

(** ** The catalog *)

(** [_read_songs_data], on what opening and decoding the catalog file comes
    to. *)
Definition _read_songs_data (music_json : decoded) : prog json :=
  match music_json with
  | Fails e => Raise e
  | NotJson => print MsgCatalogFormat ;; Ret (JArr [])
  | Json data => lift (Py.get data "data" (JArr []))
  end.

(** [get_all_song_info] *)
Fixpoint all_song_info (songs : list json) : result (list song_info) :=
  match songs with
  | [] => Ok []
  | song :: rest =>
      match Py.get song "id" JNull, Py.get song "size" JNull,
            Py.get song "ext" JNull, Py.get song "bitrate" JNull,
            Py.get song "md5" JNull with
      | Ok i, Ok sz, Ok e, Ok b, Ok m =>
          match all_song_info rest with
          | Ok infos =>
              Ok ({| id := i; size := sz; ext := e; bitrate := b; md5 := m;
                     artist := None; album := None |} :: infos)
          | Exc e' => Exc e'
          end
      | _, _, _, _, _ => Exc AttributeError
      end
  end.

Definition get_all_song_info (songs_data : json) : result (list song_info) :=
  match Py.iter songs_data with
  | Ok songs => all_song_info songs
  | Exc e => Exc e
  end.

(** [upload], up to the list of songs handed to [_async_upload_songs] *)
Definition upload_list (music_json : decoded) (failed_ids_txt : ledger_file)
  : prog (list song_info) :=
  songs_data <- _read_songs_data music_json ;;
  song_info_list <- lift (get_all_song_info songs_data) ;;
  get_resume_song_info_list failed_ids_txt song_info_list.

(** ** The run: coroutines behind a semaphore

    [_async_upload_songs] creates one coroutine per song and gathers them.
    A coroutine first waits for the semaphore; once inside [async with sem]
    it runs until its next [Await], where it is suspended holding its
    permit; when it returns or raises, the permit is given back.  Between
    two suspensions a coroutine runs alone (the event loop is cooperative),
    so one step of the run is one such stretch of one coroutine. *)
Inductive task : Type :=
| Waiting (p : prog unit)                        (* not yet inside [async with sem] *)
| InFlight (c : call) (k : decoded -> prog unit) (* inside, suspended at a call *)
| Finished                                       (* returned *)
| Crashed (e : exn).                             (* raised: [gather] re-raises *)

(** Running a coroutine up to its next suspension. *)
Fixpoint advance (o : call -> decoded) (p : prog unit) : task * list event :=
  match p with
  | Ret _ => (Finished, [])
  | Raise e => (Crashed e, [])
  | Output m k => let (x, t) := advance o k in (x, EPrint m :: t)
  | AppendLedger v k => let (x, t) := advance o k in (x, EAppend v :: t)
  | Request c k => let (x, t) := advance o (k (o c)) in (x, ECall c :: t)
  | Await c k => (InFlight c k, [ECall c])
  end.

Definition holds_permit (x : task) : bool :=
  match x with
  | InFlight _ _ => true
  | _ => false
  end.

Fixpoint update {A : Type} (i : nat) (x : A) (l : list A) : list A :=
  match l, i with
  | [], _ => []
  | _ :: rest, O => x :: rest
  | y :: rest, S i' => y :: update i' x rest
  end.

(** The semaphore's counter, the coroutines in the order of the song list,
    and the events so far, each with the index of its coroutine. *)
Record pool : Type := {
  sem : nat;
  tasks : list task;
  log : list (nat * event)
}.

Definition tag (i : nat) (t : list event) : list (nat * event) :=
  map (fun e => (i, e)) t.

(** The events of coroutine [i] in a log. *)
Definition events_of (i : nat) (l : list (nat * event)) : list event :=
  map snd (filter (fun ie => Nat.eqb (fst ie) i) l).

(** [_async_upload_songs]: the state in which [gather] starts. *)
Definition _async_upload_songs (song_info_list : list song_info)
    (concurrency : nat) : pool :=
  {| sem := concurrency;
     tasks := map (fun song_info => Waiting (_upload_one_song song_info))
                  song_info_list;
     log := [] |}.

(** One step of the run.  [o i] answers the calls of coroutine [i]. *)
Inductive step (o : nat -> call -> decoded) : pool -> pool -> Prop :=
| step_enter : forall st i p x t,
    nth_error (tasks st) i = Some (Waiting p) ->
    (0 < sem st)%nat ->
    advance (o i) p = (x, t) ->
    step o st
      {| sem := if holds_permit x then sem st - 1 else sem st;
         tasks := update i x (tasks st);
         log := log st ++ tag i t |}
| step_resume : forall st i c k x t,
    nth_error (tasks st) i = Some (InFlight c k) ->
    advance (o i) (k (o i c)) = (x, t) ->
    step o st
      {| sem := if holds_permit x then sem st else S (sem st);
         tasks := update i x (tasks st);
         log := log st ++ tag i t |}.

Inductive steps (o : nat -> call -> decoded) : pool -> pool -> Prop :=
| steps_refl : forall st, steps o st st
| steps_snoc : forall st st' st'',
    steps o st st' -> step o st' st'' -> steps o st st''.

(** The coroutines that hold a permit. *)
Fixpoint in_flight (ts : list task) : nat :=
  match ts with
  | [] => O
  | x :: rest => (if holds_permit x then 1 else 0) + in_flight rest
  end.

Definition is_finished (x : task) : bool :=
  match x with
  | Finished => true
  | _ => false
  end.


(** [gather] returns when every coroutine has returned. *)
Definition completed (st : pool) : Prop :=
  forallb is_finished (tasks st) = true.






(** What a coroutine still does from where it stands. *)
Definition remainder (o : call -> decoded) (x : task)
  : result unit * list event :=
  match x with
  | Waiting p => exec o p
  | InFlight c k => exec o (k (o c))
  | Finished => (Ok tt, [])
  | Crashed e => (Exc e, [])
  end.

(** What holds of every state of a run of [songs] with [k] permits: the
    permits are either free or held by a suspended coroutine; there is one
    coroutine per song; what coroutine [i] has done so far, followed by
    what it still does, is the workflow of song [i] run on its own; and a
    coroutine that waits for the semaphore has done nothing yet. *)
Definition run_invariant (o : nat -> call -> decoded)
    (songs : list song_info) (k : nat) (st : pool) : Prop :=
  (sem st + in_flight (tasks st) = k)%nat /\
  List.length (tasks st) = List.length songs /\
  (forall i s, nth_error songs i = Some s ->
     exists x, nth_error (tasks st) i = Some x /\
       exec (o i) (_upload_one_song s) =
         (fst (remainder (o i) x),
          events_of i (log st) ++ snd (remainder (o i) x))) /\
  (forall i p, nth_error (tasks st) i = Some (Waiting p) ->
     events_of i (log st) = []).

(** The step of coroutine [i], when it can take one; and the steps of the
    coroutines named by a schedule, one after the other. *)
Definition fire (o : nat -> call -> decoded) (i : nat) (st : pool)
  : option pool :=
  match nth_error (tasks st) i with
  | Some (Waiting p) =>
      if (0 <? sem st)%nat
      then
        let (x, t) := advance (o i) p in
        Some {| sem := if holds_permit x then sem st - 1 else sem st;
                tasks := update i x (tasks st);
                log := log st ++ tag i t |}
      else None
  | Some (InFlight c k) =>
      let (x, t) := advance (o i) (k (o i c)) in
      Some {| sem := if holds_permit x then sem st else S (sem st);
              tasks := update i x (tasks st);
              log := log st ++ tag i t |}
  | _ => None
  end.

Fixpoint run_schedule (o : nat -> call -> decoded) (schedule : list nat)
    (st : pool) : option pool :=
  match schedule with
  | [] => Some st
  | i :: rest =>
      match fire o i st with
      | Some st' => run_schedule o rest st'
      | None => None
      end
  end.

(** ** What the ledger holds after a write *)

(** The line that [_save_failed_id] writes for an integer id:
    [f"{song_id}\n"]. *)
Definition ledger_line (song_id : Z) : string :=
  (Py.str_int song_id ++ String "010"%char EmptyString)%string.

Definition ends_with_newline (line : string) : bool :=
  match rev (list_ascii_of_string line) with
  | c :: _ => Ascii.eqb c "010"%char
  | [] => false
  end.

(** failed_ids.txt after [_save_failed_id] on an integer id.  Opening the
    file with mode "a" creates it when it is absent; the text goes after
    what the file holds, so into its last line when that line has no
    newline at its end. *)
Definition ledger_after_save (failed_ids_txt : ledger_file) (song_id : Z)
  : ledger_file :=
  match failed_ids_txt with
  | None => Some [ledger_line song_id]
  | Some lines =>
      match rev lines with
      | [] => Some [ledger_line song_id]
      | last :: before =>
          if ends_with_newline last
          then Some (lines ++ [ledger_line song_id])
          else Some (rev before ++ [(last ++ ledger_line song_id)%string])
      end
  end.

(** The file is absent or empty, or its last line ends with a newline. *)
Definition ends_clean (failed_ids_txt : ledger_file) : Prop :=
  match failed_ids_txt with
  | None => True
  | Some lines =>
      match rev lines with
      | [] => True
      | last :: _ => ends_with_newline last = true
      end
  end.

(** ** Vocabulary of the properties *)

(** The id of [s] is an integer other than [m]. *)
Definition other_id (m : Z) (s : song_info) : Prop :=
  exists n, Py.int (id s) = Ok n /\ n <> m.

(** [i] is the first index of [l] whose id is [m], and [s] is the song
    there. *)
Definition first_match (l : list song_info) (m : Z) (i : nat) (s : song_info)
  : Prop :=
  nth_error l i = Some s /\ Py.int (id s) = Ok m /\
  Forall (other_id m) (firstn i l).

(** [v] is a JSON object, a [dict] once decoded. *)
Definition is_object (v : json) : bool :=
  match v with
  | JObj _ => true
  | _ => false
  end.

(** The catalog file holds no catalog: its text is not JSON; or its bytes
    are no UTF-8 text, so that reading it raises [UnicodeDecodeError]; or
    it decodes to JSON that is not an object. *)
Definition malformed (music_json : decoded) : Prop :=
  music_json = NotJson \/
  music_json = Fails UnicodeDecodeError \/
  exists j, music_json = Json j /\ is_object j = false.

(** The text of the catalog file is not JSON: [json.load] raises
    [json.JSONDecodeError]. *)
Definition unparsable (music_json : decoded) : Prop := music_json = NotJson.

(** The reply to the existence check makes [_has_uploaded] return [b]. *)
Definition existence_reported (o : call -> decoded) (song_id : Z) (b : bool)
  : Prop :=
  fst (exec o (_has_uploaded song_id)) = Ok b.

(** The detail lookup returns a value that [if song_details:] rejects: the
    empty list, in particular. *)
Definition no_details (o : call -> decoded) (song_id : Z) : Prop :=
  exists song_details,
    fst (exec o (get_song_details [song_id])) = Ok song_details /\
    Py.truthy song_details = false.

(** The reply to the import request is a document that reports no
    successful song. *)
Definition reports_no_success (response : decoded) : Prop :=
  exists response_data success_songs,
    response = Json response_data /\
    data_field response_data "successSongs" (JArr []) = Ok success_songs /\
    Py.truthy success_songs = false.

(** Every failure that the reply to the import request lists carries the
    code -100 (file already exists); so it is when it lists none. *)
Definition lists_only_file_exists (response : decoded) : Prop :=
  exists response_data failed,
    response = Json response_data /\
    data_field response_data "failed" (JArr []) = Ok failed /\
    only_file_exists failed = Ok true.

(** The ids of [l], converted with [int()], are the integers [ns]. *)
Definition ids_are (l : list song_info) (ns : list Z) : Prop :=
  Forall2 (fun s n => Py.int (id s) = Ok n) l ns.

(** The reply to the import request reports a successful song. *)
Definition reports_success (response : decoded) : Prop :=
  exists response_data success_songs,
    response = Json response_data /\
    data_field response_data "successSongs" (JArr []) = Ok success_songs /\
    Py.truthy success_songs = true.

(** Whether the reply to an import request is one after which the ledger
    is left alone: it reports a successful song, or it lists a failure of
    another code than -100 ahead of any element that cannot be tested. *)
Definition leaves_ledger (response : decoded) : bool :=
  match response with
  | Json response_data =>
      match data_field response_data "successSongs" (JArr []),
            data_field response_data "failed" (JArr []) with
      | Ok success_songs, Ok failed =>
          Py.truthy success_songs ||
          match only_file_exists failed with
          | Ok false => true
          | _ => false
          end
      | _, _ => false
      end
  | _ => false
  end.


(** [info] holds the five entries of the record [song], [None] for those
    the record lacks, and no artist or album yet. *)
Definition describes (song : json) (info : song_info) : Prop :=
  Py.get song "id" JNull = Ok (id info) /\
  Py.get song "size" JNull = Ok (size info) /\
  Py.get song "ext" JNull = Ok (ext info) /\
  Py.get song "bitrate" JNull = Ok (bitrate info) /\
  Py.get song "md5" JNull = Ok (md5 info) /\
  artist info = None /\ album info = None.

(** ** Sample values *)

Definition song (n : Z) : song_info :=
  {| id := JInt n; size := JInt 1; ext := JStr "mp3"; bitrate := JInt 320;
     md5 := JStr "d41d"; artist := None; album := None |}.

Definition detail_reply : json :=
  JObj [("code", JInt 200);
        ("songs", JArr [JObj [("name", JStr "t");
                              ("ar", JArr [JObj [("name", JStr "a")]]);
                              ("al", JObj [("name", JStr "b")])]])]%string.

Definition reject_with (code : Z) : json :=
  JObj [("data", JObj [("successSongs", JArr []);
                       ("failed", JArr [JObj [("code", JInt code)]])])]%string.

(** A remote that has no song in the cloud, knows every song, and rejects
    every import with [code]. *)
Definition remote_rejecting (code : Z) (c : call) : decoded :=
  match c with
  | CloudDetail _ => Json (JObj [("code", JInt 404)]%string)
  | SongDetail _ => Json detail_reply
  | CloudImport _ => Json (reject_with code)
  end.

(** A remote that has every song in the cloud. *)
Definition remote_holding_all (c : call) : decoded :=
  Json (JObj [("code", JInt 200); ("data", JArr [JInt 1])]%string).

(** A remote that knows no song. *)
Definition remote_knowing_none (c : call) : decoded :=
  match c with
  | SongDetail _ => Json (JObj [("code", JInt 200); ("songs", JArr [])]%string)
  | _ => Json (JObj [("code", JInt 404)]%string)
  end.

(** A remote that has no song in the cloud, knows every song, and answers
    every import request with [import_reply]. *)
Definition remote_answering (import_reply : decoded) (c : call) : decoded :=
  match c with
  | CloudDetail _ => Json (JObj [("code", JInt 404)]%string)
  | SongDetail _ => Json detail_reply
  | CloudImport _ => import_reply
  end.

Definition accept_reply : json :=
  JObj [("data", JObj [("successSongs", JArr [JObj [("songId", JInt 3)]]);
                       ("failed", JArr [])])]%string.

(** A remote that answers the existence check with code 200 and no data. *)
Definition remote_without_data (c : call) : decoded :=
  Json (JObj [("code", JInt 200)]%string).


(** A catalog of two records, the second without id. *)
Definition small_catalog : json :=
  JObj [("data",
         JArr [JObj [("id", JInt 1); ("size", JInt 9); ("ext", JStr "mp3");
                     ("bitrate", JInt 320); ("md5", JStr "ab")];
               JObj [("size", JInt 7)]])]%string.

(** A catalog whose second record is a number. *)
Definition broken_catalog : json :=
  JObj [("data", JArr [JObj [("id", JInt 1)]; JInt 2])]%string.

(** The run of one song against a remote that cannot be reached, after
    its coroutine has entered and has been resumed. *)
Definition one_failed : pool :=
  {| sem := 1;
     tasks := [Finished];
     log := [(0%nat, EPrint (MsgImporting 4));
             (0%nat, ECall (CloudDetail 4));
             (0%nat, EPrint (MsgUploadException TransportError));
             (0%nat, EAppend (JInt 4))] |}.

(** A descriptor built from a record without id. *)
Definition nameless : song_info :=
  {| id := JNull; size := JInt 1; ext := JStr "mp3"; bitrate := JInt 320;
     md5 := JStr "d41d"; artist := None; album := None |}.

(** A ledger of two lines, the second of which is no number. *)
Definition scribbled_ledger : ledger_file :=
  Some [("12" ++ String "010"%char "")%string;
        ("oops" ++ String "010"%char "")%string].

(** A remote that cannot be reached. *)
Definition remote_down (c : call) : decoded := Fails TransportError.

(** The run of two songs with one permit, after the first coroutine has
    entered and is suspended at its existence check. *)
Definition one_entered : pool :=
  let st := _async_upload_songs [song 1; song 2] 1 in
  let x := fst (advance remote_holding_all (_upload_one_song (song 1))) in
  let t := snd (advance remote_holding_all (_upload_one_song (song 1))) in
  {| sem := if holds_permit x then sem st - 1 else sem st;
     tasks := update 0 x (tasks st);
     log := log st ++ tag 0 t |}.

(** * Properties *)

Example int_of_str_plain : Py.int_of_str " 1_024  " = Ok 1024%Z.
Proof. reflexivity. Qed.

Example int_of_str_blank : Py.int_of_str "" = Exc ValueError.
Proof. reflexivity. Qed.

Example int_of_str_signed : Py.int_of_str "-42" = Ok (-42)%Z.
Proof. reflexivity. Qed.

Example int_of_str_separator :
  Py.int_of_str (String (ascii_of_nat 28) "5") = Exc ValueError /\
  Py.int_of_str (Py.strip (String (ascii_of_nat 28) "5")) = Ok 5%Z.
Proof. split; reflexivity. Qed.


(** ** Running programs *)

Lemma exec_bind : forall (A B : Type) (o : call -> decoded) (p : prog A)
    (f : A -> prog B),
  exec o (bind p f) =
  match exec o p with
  | (Ok a, t) => let (r, t') := exec o (f a) in (r, t ++ t')
  | (Exc e, t) => (Exc e, t)
  end.
Proof.
  intros A B o p f.
  induction p as [a | e | m k IH | v k IH | c k IH | c k IH]; cbn [bind exec].
  - destruct (exec o (f a)); reflexivity.
  - reflexivity.
  - rewrite IH. destruct (exec o k) as [[a | e] t]; [|reflexivity].
    destruct (exec o (f a)); reflexivity.
  - rewrite IH. destruct (exec o k) as [[a | e] t]; [|reflexivity].
    destruct (exec o (f a)); reflexivity.
  - rewrite IH. destruct (exec o (k (o c))) as [[a | e] t]; [|reflexivity].
    destruct (exec o (f a)); reflexivity.
  - rewrite IH. destruct (exec o (k (o c))) as [[a | e] t]; [|reflexivity].
    destruct (exec o (f a)); reflexivity.
Qed.

Lemma exec_try_except : forall (A : Type) (o : call -> decoded) (p : prog A)
    (h : exn -> prog A),
  exec o (try_except p h) =
  match exec o p with
  | (Ok a, t) => (Ok a, t)
  | (Exc e, t) => let (r, t') := exec o (h e) in (r, t ++ t')
  end.
Proof.
  intros A o p h.
  induction p as [a | e | m k IH | v k IH | c k IH | c k IH];
    cbn [try_except exec].
  - reflexivity.
  - destruct (exec o (h e)); reflexivity.
  - rewrite IH. destruct (exec o k) as [[a | e] t]; [reflexivity|].
    destruct (exec o (h e)); reflexivity.
  - rewrite IH. destruct (exec o k) as [[a | e] t]; [reflexivity|].
    destruct (exec o (h e)); reflexivity.
  - rewrite IH. destruct (exec o (k (o c))) as [[a | e] t]; [reflexivity|].
    destruct (exec o (h e)); reflexivity.
  - rewrite IH. destruct (exec o (k (o c))) as [[a | e] t]; [reflexivity|].
    destruct (exec o (h e)); reflexivity.
Qed.

Lemma exec_lift : forall (A : Type) (o : call -> decoded) (r : result A),
  exec o (lift r) = (r, []).
Proof. intros A o [a | e]; reflexivity. Qed.

Lemma appended_app : forall t t', appended (t ++ t') = appended t ++ appended t'.
Proof.
  induction t as [| [m | c | v] t IH]; intros t'; cbn [app appended];
    rewrite ?IH; reflexivity.
Qed.

Lemma calls_app : forall t t', calls (t ++ t') = calls t ++ calls t'.
Proof.
  induction t as [| [m | c | v] t IH]; intros t'; cbn [app calls];
    rewrite ?IH; reflexivity.
Qed.

(** ** The resume computation *)

Lemma resume_scan_no_match : forall o whole m rest index,
  Forall (other_id m) rest ->
  exec o (resume_scan whole m index rest) = (Ok whole, [EPrint MsgNoMatch]).
Proof.
  intros o whole m rest. induction rest as [| s rest IH]; intros index Hall.
  - reflexivity.
  - inversion Hall as [| s' rest' [n [Hn Hne]] Hrest]; subst.
    cbn [resume_scan]. rewrite Hn. cbn [lift bind].
    apply Z.eqb_neq in Hne. rewrite Hne. apply IH, Hrest.
Qed.

Lemma resume_scan_match : forall o whole m rest i s index,
  first_match rest m i s ->
  exec o (resume_scan whole m index rest) =
  (Ok (skipn (index + i + 1) whole),
   [EPrint (MsgResumeAt (index + i + 1) (id s))]).
Proof.
  intros o whole m rest. induction rest as [| s0 rest IH];
    intros i s index (Hnth & Hid & Hbefore).
  - destruct i; discriminate.
  - destruct i as [| i].
    + injection Hnth as ->. cbn [resume_scan]. rewrite Hid. cbn [lift bind].
      rewrite Z.eqb_refl. rewrite Nat.add_0_r. reflexivity.
    + cbn [firstn] in Hbefore.
      inversion Hbefore as [| s' rest' [n [Hn Hne]] Hrest]; subst.
      cbn [resume_scan]. rewrite Hn. cbn [lift bind].
      apply Z.eqb_neq in Hne. rewrite Hne.
      rewrite (IH i s (S index)).
      * replace (S index + i + 1)%nat with (index + S i + 1)%nat by lia.
        reflexivity.
      * repeat split; assumption.
Qed.

Lemma resume_scan_suffix : forall o whole m rest index r t,
  exec o (resume_scan whole m index rest) = (Ok r, t) ->
  exists n, r = skipn n whole.
Proof.
  intros o whole m rest. induction rest as [| s rest IH]; intros index r t H.
  - cbn in H. injection H as <- _. exists 0%nat. reflexivity.
  - cbn [resume_scan] in H. destruct (Py.int (id s)) as [n | e].
    + cbn [lift bind] in H. destruct (Z.eqb n m).
      * cbn in H. injection H as <- _. eexists. reflexivity.
      * eapply IH, H.
    + discriminate.
Qed.

Lemma resume_scan_returns : forall o whole m rest index,
  Forall (fun s => exists n, Py.int (id s) = Ok n) rest ->
  exists r t, exec o (resume_scan whole m index rest) = (Ok r, t).
Proof.
  intros o whole m rest. induction rest as [| s rest IH]; intros index Hall.
  - cbn. eauto.
  - inversion Hall as [| s' rest' [n Hn] Hrest]; subst.
    cbn [resume_scan]. rewrite Hn. cbn [lift bind]. destruct (Z.eqb n m).
    + cbn. eauto.
    + apply IH, Hrest.
Qed.

(** C2 (the code departs from the claim): with the ledger file absent the
    resume computation returns the descriptor list unchanged; with the file
    present and empty, [ids[-1]] in [_get_last_failed_id] raises
    [IndexError] and no list is returned. *)
Theorem C2_empty_ledger_file_raises : forall o l,
  exec o (get_resume_song_info_list None l) =
    (Ok l, [EPrint MsgNoFailureRecord]) /\
  exec o (get_resume_song_info_list (Some []) l) = (Exc IndexError, []).
Proof. intros o l. split; reflexivity. Qed.

(** C3: when the last ledger entry is the integer [m] and [i] is the first
    index of the descriptor list whose id is [m], the resume computation
    returns the sub-sequence that starts at index [i + 1], whose length is
    [len(list) - i - 1]. *)
Theorem C3_resume_after_last_failure : forall o failed_ids_txt l m i s,
  _get_last_failed_id failed_ids_txt = Ok (Some m) ->
  first_match l m i s ->
  exec o (get_resume_song_info_list failed_ids_txt l) =
    (Ok (skipn (i + 1) l), [EPrint (MsgResumeAt (i + 1) (id s))]) /\
  List.length (skipn (i + 1) l) = (List.length l - i - 1)%nat.
Proof.
  intros o failed_ids_txt l m i s Hlast Hfirst. split.
  - unfold get_resume_song_info_list. rewrite Hlast. cbn [lift bind].
    apply (resume_scan_match o l 0 Hfirst).
  - rewrite length_skipn. lia.
Qed.

Lemma C3_resume_after_last_failure_witness :
  exec remote_holding_all
    (get_resume_song_info_list (Some ["1"; " 2 "]%string)
       [song 1; song 2; song 3]) =
    (Ok [song 3], [EPrint (MsgResumeAt 2 (JInt 2))]) /\
  List.length [song 3] = 1%nat.
Proof.
  apply (@C3_resume_after_last_failure remote_holding_all
           (Some ["1"; " 2 "]%string) [song 1; song 2; song 3] 2%Z 1%nat
           (song 2)).
  - reflexivity.
  - split; [reflexivity | split; [reflexivity |]].
    constructor; [| constructor].
    exists 1%Z. split; [reflexivity | discriminate].
Defined.

(** C4: when the last ledger entry is the integer [m] and every descriptor
    id is an integer other than [m], the resume computation returns the
    descriptor list unchanged and prints the no-match note. *)
Theorem C4_resume_without_match : forall o failed_ids_txt l m,
  _get_last_failed_id failed_ids_txt = Ok (Some m) ->
  Forall (other_id m) l ->
  exec o (get_resume_song_info_list failed_ids_txt l) =
    (Ok l, [EPrint MsgNoMatch]).
Proof.
  intros o failed_ids_txt l m Hlast Hall.
  unfold get_resume_song_info_list. rewrite Hlast. cbn [lift bind].
  apply resume_scan_no_match, Hall.
Qed.

Lemma C4_resume_without_match_witness :
  exec remote_holding_all
    (get_resume_song_info_list (Some ["7"]%string) [song 1; song 2]) =
    (Ok [song 1; song 2], [EPrint MsgNoMatch]).
Proof.
  apply (@C4_resume_without_match remote_holding_all (Some ["7"]%string)
           [song 1; song 2] 7%Z).
  - reflexivity.
  - repeat constructor.
    + exists 1%Z. split; [reflexivity | discriminate].
    + exists 2%Z. split; [reflexivity | discriminate].
Defined.

(** C10: whatever the ledger, a list returned by the resume computation is
    a suffix of the descriptor list, [l[n:]] for some [n <= len(l)], the
    elements dropped being the first [n] in their order; and a list is
    returned whenever the ledger can be read and the ids are integers. *)
Theorem C10_resume_returns_suffix : forall o failed_ids_txt l,
  (forall r t,
     exec o (get_resume_song_info_list failed_ids_txt l) = (Ok r, t) ->
     exists n, (n <= List.length l)%nat /\ r = skipn n l /\ l = firstn n l ++ r) /\
  ((exists m, _get_last_failed_id failed_ids_txt = Ok m) ->
   Forall (fun s => exists n, Py.int (id s) = Ok n) l ->
   exists r t,
     exec o (get_resume_song_info_list failed_ids_txt l) = (Ok r, t)).
Proof.
  intros o failed_ids_txt l. split.
  - intros r t H.
    assert (Hn : exists n, r = skipn n l).
    { unfold get_resume_song_info_list in H.
      destruct (_get_last_failed_id failed_ids_txt) as [[m |] | e];
        cbn [lift bind] in H.
      - eapply resume_scan_suffix, H.
      - cbn in H. injection H as <- _. exists 0%nat. reflexivity.
      - discriminate. }
    destruct Hn as [n ->]. exists (Nat.min n (List.length l)).
    assert (Hmin : skipn n l = skipn (Nat.min n (List.length l)) l).
    { destruct (Nat.le_gt_cases n (List.length l)) as [Hle | Hgt].
      - rewrite Nat.min_l by assumption. reflexivity.
      - rewrite Nat.min_r by lia.
        rewrite (skipn_all2 l) by lia. rewrite skipn_all. reflexivity. }
    split; [apply Nat.le_min_r | split; [exact Hmin |]].
    rewrite Hmin. symmetry. apply firstn_skipn.
  - intros [m Hm] Hall. unfold get_resume_song_info_list. rewrite Hm.
    cbn [lift bind]. destruct m as [m |].
    + apply resume_scan_returns, Hall.
    + cbn. eauto.
Qed.

Lemma C10_resume_returns_suffix_witness :
  exists n, (n <= 3)%nat /\
    [song 3] = skipn n [song 1; song 2; song 3] /\
    [song 1; song 2; song 3] = firstn n [song 1; song 2; song 3] ++ [song 3].
Proof.
  apply (proj1 (C10_resume_returns_suffix remote_holding_all
                  (Some ["2"]%string) [song 1; song 2; song 3])
           [song 3] [EPrint (MsgResumeAt 2 (JInt 2))]).
  reflexivity.
Defined.

(** ** The catalog read *)

(** C8, as the claim states it, fails: a catalog file that holds the JSON
    list [[]] is malformed, and so is one whose bytes are no text; for
    both an exception leaves [_read_songs_data], which prints nothing and
    returns no list. *)
Lemma C8_other_malformed_catalog_raises :
  malformed (Json (JArr [])) /\
  exec remote_holding_all (_read_songs_data (Json (JArr []))) =
    (Exc AttributeError, []) /\
  malformed (Fails UnicodeDecodeError) /\
  exec remote_holding_all (_read_songs_data (Fails UnicodeDecodeError)) =
    (Exc UnicodeDecodeError, []) /\
  exec remote_holding_all (_read_songs_data (Json (JArr []))) <>
    (Ok (JArr []), [EPrint MsgCatalogFormat]).
Proof.
  split; [| split; [| split; [| split]]].
  - right. right. exists (JArr []). split; reflexivity.
  - reflexivity.
  - right. left. reflexivity.
  - reflexivity.
  - discriminate.
Qed.

(** C8 (amended): on a catalog file whose text is not JSON
    [_read_songs_data] prints the format error and returns the empty list,
    from which no descriptor is built; no exception leaves it, and [upload]
    goes on with an empty song list whenever the ledger can be read. *)
Theorem C8_unparsable_catalog_reads_empty : forall o music_json,
  unparsable music_json ->
  exec o (_read_songs_data music_json) =
    (Ok (JArr []), [EPrint MsgCatalogFormat]) /\
  get_all_song_info (JArr []) = Ok [] /\
  (forall failed_ids_txt m,
     _get_last_failed_id failed_ids_txt = Ok m ->
     exists t, exec o (upload_list music_json failed_ids_txt) = (Ok [], t)).
Proof.
  intros o music_json ->. repeat split.
  intros failed_ids_txt m Hm. unfold upload_list, get_resume_song_info_list.
  cbn [_read_songs_data print bind lift get_all_song_info Py.iter
       all_song_info].
  rewrite Hm. destruct m as [m |]; cbn; eauto.
Qed.

Lemma C8_unparsable_catalog_reads_empty_witness :
  exec remote_holding_all (_read_songs_data NotJson) =
    (Ok (JArr []), [EPrint MsgCatalogFormat]).
Proof.
  apply (@C8_unparsable_catalog_reads_empty remote_holding_all NotJson).
  reflexivity.
Defined.

(** ** The workflow of one song *)

Ltac split_cases H :=
  repeat (cbn [exec bind lift print _save_failed_id entry] in H;
          match type of H with
          | context [lift ?x] => destruct x eqn:?
          | context [match ?x with _ => _ end] =>
              lazymatch x with
              | context [exec _ _] => fail
              | _ => destruct x eqn:?
              end
          end).

Ltac close_trace H :=
  cbn [exec bind lift print _save_failed_id entry] in H;
  try discriminate H;
  injection H; intros; subst; cbn [calls appended app].

Lemma has_uploaded_trace : forall o n r t,
  exec o (_has_uploaded n) = (r, t) ->
  calls t = [CloudDetail n] /\ appended t = [].
Proof.
  intros o n r t H. unfold _has_uploaded in H.
  split_cases H; close_trace H; split; reflexivity.
Qed.

Lemma has_uploaded_true : forall o n,
  fst (exec o (_has_uploaded n)) = Ok true ->
  exec o (_has_uploaded n) = (Ok true, [ECall (CloudDetail n)]).
Proof.
  intros o n H. destruct (exec o (_has_uploaded n)) as [r t] eqn:E.
  cbn [fst] in H. subst r. unfold _has_uploaded in E.
  split_cases E; try discriminate E; close_trace E; reflexivity.
Qed.

Lemma song_details_trace : forall o song_ids r t,
  exec o (get_song_details song_ids) = (r, t) ->
  calls t = [SongDetail song_ids] /\ appended t = [].
Proof.
  intros o song_ids r t H. unfold get_song_details in H.
  split_cases H; close_trace H; split; reflexivity.
Qed.

Lemma in_calls : forall c t, In (ECall c) t <-> In c (calls t).
Proof.
  intros c t. induction t as [| [m | c' | v] t IH]; cbn [calls In].
  - tauto.
  - rewrite <- IH. split; [intros [H | H]; [discriminate | assumption] | tauto].
  - rewrite <- IH. split; (intros [H | H]; [left; congruence | tauto]).
  - rewrite <- IH. split; [intros [H | H]; [discriminate | assumption] | tauto].
Qed.

(** The import request is the only call [_send_upload_request] makes, and
    the only write is one line with the song's id, made last, in a call
    that returns. *)
Lemma send_upload_request_trace : forall o s r t,
  exec o (_send_upload_request s) = (r, t) ->
  (calls t = [] \/ calls t = [CloudImport s]) /\
  match r with
  | Ok _ => appended t = [] \/ appended t = [id s]
  | Exc _ => appended t = []
  end.
Proof.
  intros o s r t H. unfold _send_upload_request in H.
  split_cases H; close_trace H; split; auto.
Qed.

(** Up to the import request [_try_to_upload_one_song] writes nothing: its
    trace is either free of import requests and of ledger writes, or it is
    a prefix without them followed by the trace of [_send_upload_request]
    on the enriched descriptor. *)
Lemma try_to_upload_shape : forall o s r t,
  exec o (_try_to_upload_one_song s) = (r, t) ->
  (appended t = [] /\ (forall s', ~ In (CloudImport s') (calls t))) \/
  (exists song_artist song_album t0 t1,
     exec o (_send_upload_request (with_details s song_artist song_album)) =
       (r, t1) /\
     t = t0 ++ t1 /\ appended t0 = [] /\
     (forall s', ~ In (CloudImport s') (calls t0))).
Proof.
  intros o s r t H. unfold _try_to_upload_one_song in H.
  destruct (Py.int (id s)) as [song_id | e]; cbn [lift bind print] in H.
  2: { left. close_trace H. repeat split; auto. }
  cbn [exec] in H. rewrite exec_bind in H.
  destruct (exec o (_has_uploaded song_id)) as [[uploaded | e] t1] eqn:Ehas;
    apply has_uploaded_trace in Ehas as [Hc1 Ha1].
  2: { left. injection H as <- <-. cbn [calls appended]. rewrite Hc1, Ha1.
       repeat split; auto. intros s' [Hin | []]. discriminate. }
  destruct uploaded.
  { left. cbn in H. injection H as <- <-. cbn [calls appended].
    rewrite appended_app, calls_app, Hc1, Ha1.
    repeat split; auto. intros s' [Hin | []]. discriminate. }
  rewrite exec_bind in H.
  destruct (exec o (get_song_details [song_id])) as [[details | e] t2] eqn:Edet;
    apply song_details_trace in Edet as [Hc2 Ha2].
  2: { left. injection H as <- <-. cbn [calls appended].
       rewrite appended_app, calls_app, Hc1, Ha1, Hc2, Ha2.
       repeat split; auto. intros s' [Hin | [Hin | []]]; discriminate. }
  assert (Hpre : appended (EPrint (MsgImporting song_id) :: t1 ++ t2) = [] /\
                 forall s', ~ In (CloudImport s')
                              (calls (EPrint (MsgImporting song_id) :: t1 ++ t2))).
  { cbn [calls appended]. rewrite appended_app, calls_app, Hc1, Ha1, Hc2, Ha2.
    split; auto. intros s' [Hin | [Hin | []]]; discriminate. }
  destruct Hpre as [Hpa Hpc].
  destruct (Py.truthy details).
  2: { left. cbn in H. injection H as <- <-. rewrite app_nil_r.
       repeat split; auto. }
  repeat match type of H with
         | context [lift ?x] =>
             destruct x eqn:?; cbn [lift bind print exec] in H
         end.
  all: try (left; injection H as <- <-; rewrite !app_nil_r;
            repeat split; auto; fail).
  right.
  match type of H with
  | context [_send_upload_request ?s'] =>
      destruct (exec o (_send_upload_request s')) as [r3 t3] eqn:Esend
  end.
  injection H as <- <-.
  match type of Esend with
  | exec o (_send_upload_request (with_details s ?a ?b)) = _ =>
      exists a, b, (EPrint (MsgImporting song_id) :: t1 ++ t2 ++
                    [EPrint (MsgSongDetail a0 a b)]), t3
  end.
  split; [exact Esend |]. split.
  - cbn [app]. rewrite <- !app_assoc. reflexivity.
  - cbn [calls appended].
    rewrite !appended_app, !calls_app, Hc1, Ha1, Hc2, Ha2. split; auto.
    intros s' [Hin | [Hin | []]]; discriminate.
Qed.

Lemma try_to_upload_raises_before_writing : forall o s e t,
  exec o (_try_to_upload_one_song s) = (Exc e, t) -> appended t = [].
Proof.
  intros o s e t H.
  destruct (try_to_upload_shape o s H)
    as [[Ha _] | (a & b & t0 & t1 & Hsend & -> & Ha & _)].
  - exact Ha.
  - apply send_upload_request_trace in Hsend as [_ Ha1].
    rewrite appended_app, Ha, Ha1. reflexivity.
Qed.

(** [_upload_one_song] never raises, and writes at most one line, the
    song's id. *)
Lemma upload_one_song_returns : forall o s,
  exists t,
    exec o (_upload_one_song s) = (Ok tt, t) /\
    (appended t = [] \/ appended t = [id s]).
Proof.
  intros o s. unfold _upload_one_song. rewrite exec_try_except.
  destruct (exec o (_try_to_upload_one_song s)) as [[[] | e] t] eqn:E.
  - exists t. split; [reflexivity |].
    destruct (try_to_upload_shape o s E)
      as [[Ha _] | (a & b & t0 & t1 & Hsend & -> & Ha & _)].
    + left. exact Ha.
    + apply send_upload_request_trace in Hsend as [_ Ha1].
      rewrite appended_app, Ha. exact Ha1.
  - cbn [exec bind print _save_failed_id]. eexists. split; [reflexivity |].
    right. rewrite appended_app.
    rewrite (try_to_upload_raises_before_writing o s E). reflexivity.
Qed.

(** C5: when the song's id is the integer [song_id] and the existence check
    for it reports the song present, the workflow returns after the skip
    message, having made the existence check as its only remote call and
    no ledger append. *)
Theorem C5_present_song_is_skipped : forall o s song_id,
  Py.int (id s) = Ok song_id ->
  existence_reported o song_id true ->
  exec o (_upload_one_song s) =
    (Ok tt, [EPrint (MsgImporting song_id); ECall (CloudDetail song_id);
             EPrint MsgAlreadyUploaded]) /\
  calls (snd (exec o (_upload_one_song s))) = [CloudDetail song_id] /\
  appended (snd (exec o (_upload_one_song s))) = [].
Proof.
  intros o s song_id Hid Hup.
  assert (E : exec o (_upload_one_song s) =
              (Ok tt, [EPrint (MsgImporting song_id);
                       ECall (CloudDetail song_id);
                       EPrint MsgAlreadyUploaded])).
  { unfold _upload_one_song, _try_to_upload_one_song.
    rewrite exec_try_except, Hid. cbn [lift bind print exec].
    rewrite exec_bind, (has_uploaded_true o song_id Hup). reflexivity. }
  rewrite E. repeat split.
Qed.

Lemma C5_present_song_is_skipped_witness :
  exec remote_holding_all (_upload_one_song (song 1)) =
    (Ok tt, [EPrint (MsgImporting 1); ECall (CloudDetail 1);
             EPrint MsgAlreadyUploaded]) /\
  calls (snd (exec remote_holding_all (_upload_one_song (song 1)))) =
    [CloudDetail 1] /\
  appended (snd (exec remote_holding_all (_upload_one_song (song 1)))) = [].
Proof.
  apply (@C5_present_song_is_skipped remote_holding_all (song 1) 1%Z);
    reflexivity.
Defined.

(** C7: when the existence check reports the song absent and the detail
    lookup returns nothing, the workflow returns having made the existence
    check and the detail lookup, no import request and no ledger append. *)
Theorem C7_no_details_not_recorded : forall o s song_id,
  Py.int (id s) = Ok song_id ->
  existence_reported o song_id false ->
  no_details o song_id ->
  exists t,
    exec o (_upload_one_song s) = (Ok tt, t) /\
    calls t = [CloudDetail song_id; SongDetail [song_id]] /\
    (forall s', ~ In (ECall (CloudImport s')) t) /\
    appended t = [].
Proof.
  intros o s song_id Hid Hup (song_details & Hdet & Hfalsy).
  unfold existence_reported in Hup.
  destruct (exec o (_has_uploaded song_id)) as [r1 t1] eqn:E1.
  destruct (exec o (get_song_details [song_id])) as [r2 t2] eqn:E2.
  cbn [fst] in Hup, Hdet. subst r1 r2.
  pose proof (has_uploaded_trace o song_id E1) as [Hc1 Ha1].
  pose proof (song_details_trace o [song_id] E2) as [Hc2 Ha2].
  exists (EPrint (MsgImporting song_id) :: t1 ++ t2).
  assert (Hcalls : calls (EPrint (MsgImporting song_id) :: t1 ++ t2) =
                   [CloudDetail song_id; SongDetail [song_id]]).
  { cbn [calls]. rewrite calls_app, Hc1, Hc2. reflexivity. }
  repeat split.
  - unfold _upload_one_song, _try_to_upload_one_song.
    rewrite exec_try_except, Hid. cbn [lift bind print exec].
    rewrite exec_bind, E1, exec_bind, E2, Hfalsy. cbn [exec].
    rewrite app_nil_r. reflexivity.
  - exact Hcalls.
  - intros s' Hin. apply in_calls in Hin. rewrite Hcalls in Hin.
    destruct Hin as [Hin | [Hin | []]]; discriminate.
  - cbn [appended]. rewrite appended_app, Ha1, Ha2. reflexivity.
Qed.

Lemma C7_no_details_not_recorded_witness :
  exists t,
    exec remote_knowing_none (_upload_one_song (song 5)) = (Ok tt, t) /\
    calls t = [CloudDetail 5; SongDetail [5%Z]] /\
    (forall s', ~ In (ECall (CloudImport s')) t) /\
    appended t = [].
Proof.
  apply (@C7_no_details_not_recorded remote_knowing_none (song 5) 5%Z).
  - reflexivity.
  - reflexivity.
  - exists (JArr []). split; reflexivity.
Defined.

Lemma send_upload_request_file_exists : forall o s song_artist song_album,
  reports_no_success
    (o (CloudImport (with_details s song_artist song_album))) ->
  lists_only_file_exists
    (o (CloudImport (with_details s song_artist song_album))) ->
  exists t,
    exec o (_send_upload_request (with_details s song_artist song_album)) =
      (Ok tt, t) /\
    appended t = [id s].
Proof.
  intros o s a b (response_data & success_songs & Hjson & Hsucc & Hfalsy)
    (response_data' & failed & Hjson' & Hfailed & Honly).
  rewrite Hjson in Hjson'. injection Hjson' as <-.
  unfold _send_upload_request.
  cbn [with_details artist album id entry lift bind exec].
  rewrite Hjson. cbn [bind lift]. rewrite Hsucc. cbn [bind lift].
  rewrite Hfailed. cbn [bind lift]. rewrite Hfalsy.
  cbn [print bind lift]. rewrite Honly.
  cbn [exec bind lift print _save_failed_id]. eexists. split; reflexivity.
Qed.

(** A rejection that lists a failure of another code, met before any
    element that cannot be tested, is printed and not recorded. *)
Lemma send_upload_request_other_code : forall o s response_data success_songs
    failed r t,
  o (CloudImport s) = Json response_data ->
  data_field response_data "successSongs" (JArr []) = Ok success_songs ->
  data_field response_data "failed" (JArr []) = Ok failed ->
  Py.truthy success_songs = false ->
  only_file_exists failed = Ok false ->
  exec o (_send_upload_request s) = (r, t) ->
  appended t = [].
Proof.
  intros o s response_data success_songs failed r t Hjson Hsucc Hfailed
    Hfalsy Honly H.
  unfold _send_upload_request in H.
  destruct (entry (artist s)) as [a | e]; cbn [lift bind] in H;
    [| injection H as <- <-; reflexivity].
  destruct (entry (album s)) as [b | e]; cbn [lift bind] in H;
    [| injection H as <- <-; reflexivity].
  cbn [exec] in H. rewrite Hjson in H. cbn [bind lift] in H.
  rewrite Hsucc in H. cbn [bind lift] in H. rewrite Hfailed in H.
  cbn [bind lift] in H. rewrite Hfalsy in H. cbn [print bind lift] in H.
  rewrite Honly in H. cbn [exec bind lift] in H.
  injection H as <- <-. reflexivity.
Qed.

(** C1, as the claim states it, fails: this import is answered with no
    successful song and one failure of code -200, and the workflow appends
    nothing to the ledger. *)
Lemma C1_other_code_is_not_recorded :
  In (ECall (CloudImport (with_details (song 3) (JStr "a") (JStr "b"))))
     (snd (exec (remote_rejecting (-200)) (_upload_one_song (song 3)))) /\
  reports_no_success
    (remote_rejecting (-200)
       (CloudImport (with_details (song 3) (JStr "a") (JStr "b")))) /\
  appended (snd (exec (remote_rejecting (-200)) (_upload_one_song (song 3)))) =
    [] /\
  appended (snd (exec (remote_rejecting (-200)) (_upload_one_song (song 3)))) <>
    [id (song 3)].
Proof.
  split; [| split; [| split]].
  - cbn. tauto.
  - exists (reject_with (-200)), (JArr []). repeat split.
  - reflexivity.
  - discriminate.
Qed.

(** C1 (amended): when the workflow of a song sends its import request and
    the reply reports no successful song and lists only failures of code
    -100, the workflow returns with exactly one ledger append, of that
    song's id. *)
Theorem C1_file_exists_rejection_recorded : forall o s s' r t,
  exec o (_upload_one_song s) = (r, t) ->
  In (ECall (CloudImport s')) t ->
  reports_no_success (o (CloudImport s')) ->
  lists_only_file_exists (o (CloudImport s')) ->
  r = Ok tt /\ appended t = [id s].
Proof.
  intros o s s' r t H Hin Hnone Honly.
  unfold _upload_one_song in H. rewrite exec_try_except in H.
  destruct (exec o (_try_to_upload_one_song s)) as [r0 t0] eqn:E.
  assert (Hin0 : In (CloudImport s') (calls t0)).
  { apply in_calls in Hin. destruct r0 as [[] | e].
    - injection H as <- <-. exact Hin.
    - cbn [exec bind print _save_failed_id] in H. injection H as <- <-.
      rewrite calls_app in Hin. apply in_app_or in Hin.
      destruct Hin as [Hin | Hin]; [exact Hin | destruct Hin]. }
  destruct (try_to_upload_shape o s E)
    as [[_ Hno] | (a & b & t1 & t2 & Hsend & -> & Ha & Hno)].
  - destruct (Hno s' Hin0).
  - rewrite calls_app in Hin0. apply in_app_or in Hin0.
    destruct Hin0 as [Hin0 | Hin0]; [destruct (Hno s' Hin0) |].
    pose proof (send_upload_request_trace o _ Hsend) as [[Hc | Hc] _];
      rewrite Hc in Hin0; [destruct Hin0 |].
    destruct Hin0 as [Heq | []]. injection Heq as Heq. subst s'.
    destruct (send_upload_request_file_exists o s a b Hnone Honly)
      as (t' & Hsend' & Ha').
    rewrite Hsend in Hsend'. injection Hsend' as -> <-.
    injection H as <- <-. split; [reflexivity |].
    rewrite appended_app, Ha, Ha'. reflexivity.
Qed.

Lemma C1_file_exists_rejection_recorded_witness :
  Ok tt = Ok tt /\
  appended (snd (exec (remote_rejecting (-100)) (_upload_one_song (song 3)))) =
    [id (song 3)].
Proof.
  apply (@C1_file_exists_rejection_recorded (remote_rejecting (-100)) (song 3)
           (with_details (song 3) (JStr "a") (JStr "b")) (Ok tt)
           (snd (exec (remote_rejecting (-100)) (_upload_one_song (song 3))))).
  - reflexivity.
  - cbn. tauto.
  - exists (reject_with (-100)), (JArr []). repeat split.
  - exists (reject_with (-100)), (JArr [JObj [("code"%string, JInt (-100))]]).
    repeat split.
Defined.

(** ** The run *)

Lemma length_update : forall (A : Type) (l : list A) i x,
  List.length (update i x l) = List.length l.
Proof.
  induction l as [| y l IH]; intros [| i] x; cbn [update List.length];
    rewrite ?IH; reflexivity.
Qed.

Lemma nth_error_update_same : forall (A : Type) (l : list A) i x y,
  nth_error l i = Some y -> nth_error (update i x l) i = Some x.
Proof.
  induction l as [| z l IH]; intros [| i] x y H; cbn in *;
    try discriminate; eauto.
Qed.

Lemma nth_error_update_other : forall (A : Type) (l : list A) i j x,
  i <> j -> nth_error (update i x l) j = nth_error l j.
Proof.
  induction l as [| z l IH]; intros [| i] [| j] x H; cbn; try reflexivity.
  - contradiction.
  - apply IH. congruence.
Qed.

Lemma in_flight_update : forall ts i x y,
  nth_error ts i = Some y ->
  (in_flight (update i x ts) + (if holds_permit y then 1 else 0) =
   in_flight ts + (if holds_permit x then 1 else 0))%nat.
Proof.
  induction ts as [| z ts IH]; intros [| i] x y H; cbn in H; try discriminate.
  - injection H as ->. cbn [update in_flight]. lia.
  - cbn [update in_flight]. specialize (IH i x y H). lia.
Qed.

Lemma in_flight_all_waiting : forall (A : Type) (f : A -> prog unit) l,
  in_flight (map (fun a => Waiting (f a)) l) = 0%nat.
Proof. induction l as [| a l IH]; cbn; auto. Qed.



Lemma events_of_app : forall i l l',
  events_of i (l ++ l') = events_of i l ++ events_of i l'.
Proof.
  intros i l l'. unfold events_of. rewrite filter_app, map_app. reflexivity.
Qed.

Lemma events_of_tag_same : forall i t, events_of i (tag i t) = t.
Proof.
  intros i t. unfold events_of, tag.
  induction t as [| e t IH]; cbn [map filter fst]; [reflexivity |].
  rewrite Nat.eqb_refl. cbn [map snd]. rewrite IH. reflexivity.
Qed.

Lemma events_of_tag_other : forall i j t, i <> j -> events_of i (tag j t) = [].
Proof.
  intros i j t H. unfold events_of, tag.
  induction t as [| e t IH]; cbn [map filter fst]; [reflexivity |].
  replace (Nat.eqb j i) with false by (symmetry; apply Nat.eqb_neq; congruence).
  exact IH.
Qed.


Section Coroutine.

Variable o : call -> decoded.

(** Running to the next suspension and then to the end is running to the
    end. *)
Lemma exec_advance : forall p,
  exec o p =
  (fst (remainder o (fst (advance o p))),
   snd (advance o p) ++ snd (remainder o (fst (advance o p)))).
Proof.
  induction p as [[] | e | m k IH | v k IH | c k IH | c k IH];
    cbn [advance exec]; try reflexivity.
  - rewrite IH. destruct (advance o k) as [x t]. reflexivity.
  - rewrite IH. destruct (advance o k) as [x t]. reflexivity.
  - rewrite IH. destruct (advance o (k (o c))) as [x t]. reflexivity.
  - cbn [fst snd remainder app].
    destruct (exec o (k (o c))) as [r t]. reflexivity.
Qed.


Lemma advance_not_waiting : forall p q, fst (advance o p) <> Waiting q.
Proof.
  intros p q.
  induction p as [[] | e | m k IH | v k IH | c k IH | c k IH];
    cbn [advance]; try (cbn; discriminate).
  - destruct (advance o k) as [x t]. exact IH.
  - destruct (advance o k) as [x t]. exact IH.
  - specialize (IH (o c)). destruct (advance o (k (o c))) as [x t]. exact IH.
Qed.

End Coroutine.

Section Run.

Variable o : nat -> call -> decoded.
Variable songs : list song_info.
Variable k : nat.


Lemma run_invariant_start :
  run_invariant o songs k (_async_upload_songs songs k).
Proof.
  unfold run_invariant, _async_upload_songs.
  cbn [sem tasks log]. repeat split.
  - rewrite in_flight_all_waiting. lia.
  - apply length_map.
  - intros i s Hs. eexists. split.
    + apply map_nth_error, Hs.
    + cbn [remainder events_of filter map app].
      destruct (exec (o i) (_upload_one_song s)); reflexivity.
Qed.

(** Coroutine [i] goes from [x0] to [x], doing [t] on the way. *)
Lemma run_invariant_advance : forall st i x0 x t s',
  run_invariant o songs k st ->
  nth_error (tasks st) i = Some x0 ->
  remainder (o i) x0 =
    (fst (remainder (o i) x), t ++ snd (remainder (o i) x)) ->
  (forall q, x <> Waiting q) ->
  (s' + in_flight (update i x (tasks st)) = k)%nat ->
  run_invariant o songs k
    {| sem := s'; tasks := update i x (tasks st); log := log st ++ tag i t |}.
Proof.
  intros st i x0 x t s' (_ & Hlen & Href & Hwait) Hi Hrem Hnw Hsem.
  unfold run_invariant. cbn [sem tasks log]. repeat split.
  - exact Hsem.
  - rewrite length_update. exact Hlen.
  - intros j s Hs. destruct (Href j s Hs) as (y & Hy & Hexec).
    destruct (Nat.eq_dec i j) as [<- | Hne].
    + exists x. split; [eapply nth_error_update_same, Hi |].
      rewrite Hi in Hy. injection Hy as <-.
      rewrite Hexec, Hrem. cbn [fst snd].
      rewrite events_of_app, events_of_tag_same, app_assoc. reflexivity.
    + exists y. split; [rewrite nth_error_update_other; assumption |].
      rewrite Hexec, events_of_app, events_of_tag_other by congruence.
      rewrite app_nil_r. reflexivity.
  - intros j q Hj. destruct (Nat.eq_dec i j) as [<- | Hne].
    + rewrite (@nth_error_update_same _ _ _ x _ Hi) in Hj. injection Hj as ->.
      destruct (Hnw q eq_refl).
    + rewrite nth_error_update_other in Hj by assumption.
      rewrite events_of_app, events_of_tag_other by congruence.
      rewrite app_nil_r. eapply Hwait, Hj.
Qed.

Lemma run_invariant_step : forall st st',
  run_invariant o songs k st -> step o st st' -> run_invariant o songs k st'.
Proof.
  intros st st' Hinv Hstep.
  destruct Hstep as [st i p x t Hi Hsem Hadv | st i c kk x t Hi Hadv].
  - apply run_invariant_advance with (x0 := Waiting p);
      [exact Hinv | exact Hi | | |].
    + cbn [remainder]. rewrite (exec_advance (o i) p), Hadv. reflexivity.
    + intros q. pose proof (@advance_not_waiting (o i) p q) as Hnw.
      rewrite Hadv in Hnw. exact Hnw.
    + destruct Hinv as (Hperm & _).
      pose proof (in_flight_update (tasks st) i x Hi) as Hupd.
      cbn [holds_permit] in Hupd. destruct (holds_permit x); lia.
  - apply run_invariant_advance with (x0 := InFlight c kk);
      [exact Hinv | exact Hi | | |].
    + cbn [remainder]. rewrite (exec_advance (o i) (kk (o i c))), Hadv.
      reflexivity.
    + intros q. pose proof (@advance_not_waiting (o i) (kk (o i c)) q) as Hnw.
      rewrite Hadv in Hnw. exact Hnw.
    + destruct Hinv as (Hperm & _).
      pose proof (in_flight_update (tasks st) i x Hi) as Hupd.
      cbn [holds_permit] in Hupd. destruct (holds_permit x); lia.
Qed.

Lemma run_invariant_steps : forall st,
  steps o (_async_upload_songs songs k) st -> run_invariant o songs k st.
Proof.
  intros st H.
  remember (_async_upload_songs songs k) as st0 eqn:E.
  induction H as [st | st st' st'' H IH Hstep]; subst.
  - apply run_invariant_start.
  - eapply run_invariant_step; [apply IH; reflexivity | exact Hstep].
Qed.






Lemma steps_cons : forall st st' st'',
  step o st st' -> steps o st' st'' -> steps o st st''.
Proof.
  intros st st' st'' H1 H2. induction H2 as [st' | st' a b H2 IH Hab].
  - eapply steps_snoc; [apply steps_refl | exact H1].
  - eapply steps_snoc; [apply IH, H1 | exact Hab].
Qed.



End Run.

(** C9: in every state that a run with [k] permits reaches, the coroutines
    inside [async with sem] (entered and not yet returned) and the free
    permits add up to [k], so at most [k] workflows are in flight; a
    coroutine still waiting for the semaphore has made no call, printed
    nothing and written nothing. *)
Theorem C9_at_most_k_in_flight : forall o songs k st,
  steps o (_async_upload_songs songs k) st ->
  (in_flight (tasks st) <= k)%nat /\
  (sem st + in_flight (tasks st) = k)%nat /\
  (forall i p, nth_error (tasks st) i = Some (Waiting p) ->
     events_of i (log st) = []).
Proof.
  intros o songs k st H.
  apply run_invariant_steps in H as (Hperm & _ & _ & Hwait).
  split; [lia | split; [exact Hperm | exact Hwait]].
Qed.

Lemma C9_at_most_k_in_flight_witness :
  (in_flight (tasks one_entered) <= 1)%nat /\
  (sem one_entered + in_flight (tasks one_entered) = 1)%nat /\
  (forall i p, nth_error (tasks one_entered) i = Some (Waiting p) ->
     events_of i (log one_entered) = []).
Proof.
  apply (@C9_at_most_k_in_flight (fun _ => remote_holding_all)
           [song 1; song 2] 1%nat one_entered).
  eapply steps_snoc; [apply steps_refl |].
  apply (@step_enter (fun _ => remote_holding_all)
           (_async_upload_songs [song 1; song 2] 1) 0%nat
           (_upload_one_song (song 1))
           (fst (advance remote_holding_all (_upload_one_song (song 1))))
           (snd (advance remote_holding_all (_upload_one_song (song 1))))).
  - reflexivity.
  - cbn. lia.
  - reflexivity.
Defined.



(** * Further properties *)

(** ** Integers written and read back *)

Lemma digit_of_digit_char : forall d,
  (0 <= d < 10)%Z -> Py.digit_of (Py.digit_char d) = Some d.
Proof.
  intros d H.
  assert (Hd : (d = 0 \/ d = 1 \/ d = 2 \/ d = 3 \/ d = 4 \/ d = 5 \/
                d = 6 \/ d = 7 \/ d = 8 \/ d = 9)%Z) by lia.
  repeat (destruct Hd as [-> | Hd]; [reflexivity |]). subst. reflexivity.
Qed.

Lemma digit_char_plain : forall d,
  (0 <= d < 10)%Z ->
  Py.is_space (Py.digit_char d) = false /\
  Ascii.eqb (Py.digit_char d) "-"%char = false /\
  Ascii.eqb (Py.digit_char d) "+"%char = false.
Proof.
  intros d H.
  assert (Hd : (d = 0 \/ d = 1 \/ d = 2 \/ d = 3 \/ d = 4 \/ d = 5 \/
                d = 6 \/ d = 7 \/ d = 8 \/ d = 9)%Z) by lia.
  repeat (destruct Hd as [-> | Hd]; [repeat split |]). subst. repeat split.
Qed.

(** Reading the digits that [decimal] wrote gives the number back. *)
Lemma digits_decimal : forall fuel n rest,
  (0 <= n < 2 ^ Z.of_nat (S fuel))%Z ->
  Py.digits 0 false (Py.decimal (S fuel) n rest) = Py.digits n true rest.
Proof.
  induction fuel as [| fuel IH]; intros n rest Hn;
    change (Py.decimal (S ?f) n rest)
      with (if (n <? 10)%Z then Py.digit_char (n mod 10) :: rest
            else Py.decimal f (n / 10) (Py.digit_char (n mod 10) :: rest));
    destruct (Z.ltb_spec n 10) as [Hlt | Hge].
  - cbn [Py.digits]. rewrite digit_of_digit_char by (apply Z.mod_pos_bound; lia).
    rewrite Z.mod_small by lia. reflexivity.
  - cbn in Hn. lia.
  - cbn [Py.digits]. rewrite digit_of_digit_char by (apply Z.mod_pos_bound; lia).
    rewrite Z.mod_small by lia. reflexivity.
  - rewrite IH.
    + cbn [Py.digits].
      rewrite digit_of_digit_char by (apply Z.mod_pos_bound; lia).
      rewrite <- Z.div_mod by lia. reflexivity.
    + rewrite (Nat2Z.inj_succ (S fuel)), Z.pow_succ_r in Hn by lia.
      split; [apply Z.div_pos; lia |].
      apply Z.div_lt_upper_bound; lia.
Qed.

Lemma decimal_plain : forall fuel n rest,
  (0 <= n)%Z ->
  Forall (fun c => Py.is_space c = false) rest ->
  Forall (fun c => Py.is_space c = false) (Py.decimal fuel n rest).
Proof.
  induction fuel as [| fuel IH]; intros n rest Hn Hrest; cbn [Py.decimal].
  - exact Hrest.
  - assert (Hc : Forall (fun c => Py.is_space c = false)
                   (Py.digit_char (n mod 10) :: rest)).
    { constructor; [| exact Hrest].
      apply digit_char_plain, Z.mod_pos_bound. lia. }
    destruct (n <? 10)%Z; [exact Hc |].
    apply IH; [apply Z.div_pos; lia | exact Hc].
Qed.

Lemma decimal_head : forall fuel n rest,
  (0 <= n)%Z ->
  exists d cs,
    (0 <= d < 10)%Z /\ Py.decimal (S fuel) n rest = Py.digit_char d :: cs.
Proof.
  induction fuel as [| fuel IH]; intros n rest Hn.
  - cbn [Py.decimal]. exists (n mod 10)%Z.
    destruct (n <? 10)%Z; eexists; (split; [apply Z.mod_pos_bound; lia |]);
      reflexivity.
  - change (Py.decimal (S (S fuel)) n rest)
      with (if (n <? 10)%Z then Py.digit_char (n mod 10) :: rest
            else Py.decimal (S fuel) (n / 10)
                   (Py.digit_char (n mod 10) :: rest)).
    destruct (n <? 10)%Z.
    + exists (n mod 10)%Z, rest. split; [apply Z.mod_pos_bound; lia |].
      reflexivity.
    + apply IH, Z.div_pos; lia.
Qed.

Lemma lstrip_plain : forall cs,
  Forall (fun c => Py.is_space c = false) cs -> Py.lstrip cs = cs.
Proof.
  intros cs H. destruct H as [| c cs Hc _]; cbn [Py.lstrip]; [reflexivity |].
  rewrite Hc. reflexivity.
Qed.

Lemma lstrip_spaces : forall ws cs,
  Forall (fun c => Py.is_space c = true) ws ->
  Py.lstrip (ws ++ cs) = Py.lstrip cs.
Proof.
  intros ws cs H. induction H as [| c ws Hc _ IH]; cbn [app Py.lstrip];
    [reflexivity |]. rewrite Hc. exact IH.
Qed.

(** [strip] removes the whitespace around a text that has none inside. *)
Lemma strip_padded : forall left body right,
  Forall (fun c => Py.is_space c = true) left ->
  Forall (fun c => Py.is_space c = false) body ->
  Forall (fun c => Py.is_space c = true) right ->
  Py.strip (string_of_list_ascii (left ++ body ++ right)) =
  string_of_list_ascii body.
Proof.
  intros left body right Hl Hb Hr. unfold Py.strip.
  rewrite list_ascii_of_string_of_list_ascii, (lstrip_spaces _ Hl).
  assert (Hinner : Py.lstrip (body ++ right) = body ++ right \/ body = []).
  { destruct Hb as [| c body Hc _]; [right; reflexivity | left].
    cbn [app Py.lstrip]. rewrite Hc. reflexivity. }
  destruct Hinner as [-> | ->].
  - rewrite rev_app_distr, lstrip_spaces by (apply Forall_rev, Hr).
    rewrite lstrip_plain by (apply Forall_rev, Hb).
    rewrite rev_involutive. reflexivity.
  - cbn [app]. rewrite <- (app_nil_r right), lstrip_spaces by exact Hr.
    reflexivity.
Qed.

Lemma int_space_is_space : forall c,
  Py.is_space c = false -> Py.is_int_space c = false.
Proof.
  intros c. unfold Py.is_space, Py.is_int_space.
  destruct (Nat.leb_spec 9 (nat_of_ascii c)),
    (Nat.leb_spec (nat_of_ascii c) 13),
    (Nat.leb_spec 28 (nat_of_ascii c)),
    (Nat.leb_spec (nat_of_ascii c) 32),
    (Nat.eqb_spec (nat_of_ascii c) 32);
    cbn [andb orb]; intros Hsp; try reflexivity; try discriminate; lia.
Qed.

Lemma lskip_plain : forall cs,
  Forall (fun c => Py.is_space c = false) cs -> Py.lskip cs = cs.
Proof.
  intros cs H. destruct H as [| c cs Hc _]; cbn [Py.lskip]; [reflexivity |].
  rewrite (int_space_is_space c Hc). reflexivity.
Qed.

(** [int()] has nothing to skip around a text without whitespace. *)
Lemma trimmed_plain : forall body,
  Forall (fun c => Py.is_space c = false) body ->
  Py.trimmed (string_of_list_ascii body) = body.
Proof.
  intros body H. unfold Py.trimmed.
  rewrite list_ascii_of_string_of_list_ascii, (lskip_plain H).
  rewrite lskip_plain by (apply Forall_rev, H). apply rev_involutive.
Qed.

Lemma list_ascii_of_string_app : forall a b,
  list_ascii_of_string (a ++ b)%string =
  list_ascii_of_string a ++ list_ascii_of_string b.
Proof.
  induction a as [| c a IH]; intros b; cbn; rewrite ?IH; reflexivity.
Qed.

Lemma str_int_chars : forall n,
  exists body,
    Py.str_int n = string_of_list_ascii body /\
    Forall (fun c => Py.is_space c = false) body /\
    Py.int_of_str (string_of_list_ascii body) = Ok n.
Proof.
  intros n. unfold Py.str_int.
  set (fuel := Z.to_nat (Z.log2 (Z.abs n))).
  assert (Hbound : (0 <= Z.abs n < 2 ^ Z.of_nat (S fuel))%Z).
  { split; [apply Z.abs_nonneg |]. unfold fuel.
    rewrite Nat2Z.inj_succ, Z2Nat.id by apply Z.log2_nonneg.
    destruct (Z.eq_dec (Z.abs n) 0) as [-> | Hnz]; [cbn; lia |].
    apply Z.log2_spec. lia. }
  pose proof (@decimal_plain (S fuel) (Z.abs n) [] (proj1 Hbound)
                (Forall_nil _)) as Hplain.
  pose proof (@digits_decimal fuel (Z.abs n) [] Hbound) as Hread.
  cbn [Py.digits] in Hread.
  destruct (@decimal_head fuel (Z.abs n) [] (proj1 Hbound))
    as (d & cs & Hd & Hhead).
  destruct (Z.ltb_spec n 0) as [Hneg | Hpos]; eexists; split; try reflexivity.
  - split; [constructor; [reflexivity | exact Hplain] |].
    unfold Py.int_of_str.
    rewrite (trimmed_plain
               (Forall_cons _ (eq_refl : Py.is_space "-"%char = false) Hplain)).
    cbn [Ascii.eqb Bool.eqb andb]. rewrite Hread. cbn [option_map].
    f_equal. lia.
  - split; [exact Hplain |]. unfold Py.int_of_str.
    rewrite (trimmed_plain Hplain), Hhead.
    destruct (digit_char_plain Hd) as (_ & -> & ->).
    rewrite <- Hhead, Hread. f_equal. lia.
Qed.

Lemma string_of_list_ascii_snoc : forall body c,
  string_of_list_ascii (body ++ [c]) =
  (string_of_list_ascii body ++ String c EmptyString)%string.
Proof.
  induction body as [| b body IH]; intros c; cbn; rewrite ?IH; reflexivity.
Qed.

Lemma strip_ledger_line : forall n, Py.strip (ledger_line n) = Py.str_int n.
Proof.
  intros n. unfold ledger_line.
  destruct (str_int_chars n) as (body & -> & Hplain & _).
  rewrite <- string_of_list_ascii_snoc.
  pose proof (@strip_padded [] body ["010"%char] (Forall_nil _) Hplain) as H.
  cbn [app] in H. apply H. repeat constructor.
Qed.

Lemma ledger_line_ends_with_newline : forall text n,
  ends_with_newline (text ++ ledger_line n)%string = true.
Proof.
  intros text n. unfold ends_with_newline, ledger_line.
  rewrite !list_ascii_of_string_app, !rev_app_distr. reflexivity.
Qed.

Lemma last_item_snoc : forall (A : Type) (l : list A) x,
  last_item (l ++ [x]) = Ok x.
Proof. intros A l x. unfold last_item. rewrite rev_app_distr. reflexivity. Qed.

Lemma get_last_failed_id_snoc : forall lines line,
  _get_last_failed_id (Some (lines ++ [line])) =
  match Py.int_of_str (Py.strip line) with
  | Ok n => Ok (Some n)
  | Exc e => Exc e
  end.
Proof.
  intros lines line. unfold _get_last_failed_id.
  rewrite map_app. cbn [map]. rewrite last_item_snoc. reflexivity.
Qed.

Lemma int_of_str_str_int : forall n, Py.int_of_str (Py.str_int n) = Ok n.
Proof.
  intros n. destruct (str_int_chars n) as (body & -> & _ & H). exact H.
Qed.

Lemma ledger_after_save_last : forall failed_ids_txt n,
  ends_clean failed_ids_txt ->
  exists lines, ledger_after_save failed_ids_txt n =
                Some (lines ++ [ledger_line n]).
Proof.
  intros failed_ids_txt n Hclean.
  destruct failed_ids_txt as [lines |]; cbn [ledger_after_save ends_clean] in *;
    [| exists []; reflexivity].
  destruct (rev lines) as [| last before]; [exists []; reflexivity |].
  rewrite Hclean. exists lines. reflexivity.
Qed.

Lemma get_last_failed_id_ledger_line : forall lines n,
  _get_last_failed_id (Some (lines ++ [ledger_line n])) = Ok (Some n).
Proof.
  intros lines n.
  rewrite get_last_failed_id_snoc, strip_ledger_line, int_of_str_str_int.
  reflexivity.
Qed.

(** X1: an integer id that [_save_failed_id] writes is the id that
    [_get_last_failed_id] reads back, whatever the ledger held before,
    provided the file was absent, empty, or ended with a newline; and the
    file ends with a newline after every write. *)
Theorem X1_saved_id_is_read_back : forall failed_ids_txt n,
  ends_clean failed_ids_txt ->
  _get_last_failed_id (ledger_after_save failed_ids_txt n) = Ok (Some n) /\
  ends_clean (ledger_after_save failed_ids_txt n).
Proof.
  intros failed_ids_txt n Hclean.
  destruct (@ledger_after_save_last failed_ids_txt n Hclean) as (lines & ->).
  split; [apply get_last_failed_id_ledger_line |].
  cbn [ends_clean]. rewrite rev_app_distr. cbn [rev app].
  exact (ledger_line_ends_with_newline "" n).
Qed.

Lemma X1_saved_id_is_read_back_witness :
  _get_last_failed_id (ledger_after_save scribbled_ledger (-305)) =
    Ok (Some (-305)%Z) /\
  ends_clean (ledger_after_save scribbled_ledger (-305)).
Proof.
  apply (@X1_saved_id_is_read_back scribbled_ledger (-305)%Z).
  reflexivity.
Defined.

Example glued_to_an_unfinished_line :
  _get_last_failed_id (ledger_after_save (Some ["3"%string]) 5) = Ok (Some 35%Z).
Proof. reflexivity. Qed.

(** ** Ledgers the resume computation cannot use *)

Lemma strip_blank : forall ws,
  Forall (fun c => Py.is_space c = true) ws ->
  Py.strip (string_of_list_ascii ws) = EmptyString.
Proof.
  intros ws H.
  pose proof (@strip_padded ws [] [] H (Forall_nil _) (Forall_nil _)) as E.
  cbn [app] in E. rewrite app_nil_r in E. exact E.
Qed.

(** X2: when the last line of the ledger is blank (a trailing empty line,
    or only whitespace), the resume computation raises [ValueError] before
    it prints anything, whatever ids the lines above hold and whatever the
    descriptor list. *)
Theorem X2_blank_last_line_raises : forall o lines ws l,
  Forall (fun c => Py.is_space c = true) ws ->
  exec o (get_resume_song_info_list
            (Some (lines ++ [string_of_list_ascii ws])) l) =
    (Exc ValueError, []).
Proof.
  intros o lines ws l H. unfold get_resume_song_info_list.
  rewrite get_last_failed_id_snoc, (strip_blank H). reflexivity.
Qed.

Lemma X2_blank_last_line_raises_witness :
  exec remote_holding_all
    (get_resume_song_info_list
       (Some (["3"%string] ++ [string_of_list_ascii ["010"%char]]))
       [song 3; song 4]) =
    (Exc ValueError, []).
Proof.
  apply (@X2_blank_last_line_raises remote_holding_all ["3"%string]
           ["010"%char] [song 3; song 4]).
  repeat constructor.
Defined.

Lemma resume_scan_raises : forall o whole m front s back e index,
  Forall (other_id m) front ->
  Py.int (id s) = Exc e ->
  exec o (resume_scan whole m index (front ++ s :: back)) = (Exc e, []).
Proof.
  intros o whole m front s back e index Hfront Hs. revert index.
  induction Hfront as [| s0 front (n & Hn & Hne) _ IH]; intros index.
  - cbn [app resume_scan]. rewrite Hs. reflexivity.
  - cbn [app resume_scan]. rewrite Hn. cbn [lift bind].
    apply Z.eqb_neq in Hne. rewrite Hne. apply IH.
Qed.

(** X3: the scan converts the ids in order and stops at the first match.
    A descriptor whose id [int()] rejects (a record without id, say) and
    that comes before any match makes the resume computation raise that
    exception: no list is returned and nothing is printed. *)
Theorem X3_unusable_id_before_match_raises : forall o failed_ids_txt m front
    s back e,
  _get_last_failed_id failed_ids_txt = Ok (Some m) ->
  Forall (other_id m) front ->
  Py.int (id s) = Exc e ->
  exec o (get_resume_song_info_list failed_ids_txt (front ++ s :: back)) =
    (Exc e, []).
Proof.
  intros o failed_ids_txt m front s back e Hm Hfront Hs.
  unfold get_resume_song_info_list. rewrite Hm. cbn [lift bind].
  apply resume_scan_raises; assumption.
Qed.

Lemma X3_unusable_id_before_match_raises_witness :
  exec remote_holding_all
    (get_resume_song_info_list (Some ["2"%string])
       ([song 1] ++ nameless :: [song 2])) =
    (Exc TypeError, []).
Proof.
  apply (@X3_unusable_id_before_match_raises remote_holding_all
           (Some ["2"%string]) 2%Z [song 1] nameless [song 2] TypeError).
  - reflexivity.
  - repeat constructor. exists 1%Z. split; [reflexivity | discriminate].
  - reflexivity.
Defined.

(** ** Catalogs with distinct ids *)

Lemma ids_without_marker : forall l ns m,
  ids_are l ns -> ~ In m ns -> Forall (other_id m) l.
Proof.
  intros l ns m H. induction H as [| s n l ns Hs _ IH]; intros Hnot.
  - constructor.
  - constructor.
    + exists n. split; [exact Hs |]. intros ->. apply Hnot. left. reflexivity.
    + apply IH. intros Hin. apply Hnot. right. exact Hin.
Qed.

Lemma match_or_none : forall l ns m,
  ids_are l ns ->
  Forall (other_id m) l \/ exists i s, first_match l m i s.
Proof.
  intros l ns m H. induction H as [| s n l ns Hs _ IH].
  - left. constructor.
  - destruct (Z.eq_dec n m) as [-> | Hne].
    + right. exists 0%nat, s. repeat split; [exact Hs | constructor].
    + assert (Hother : other_id m s) by (exists n; auto).
      destruct IH as [Hall | (i & s' & Hnth & Hid & Hbefore)].
      * left. constructor; assumption.
      * right. exists (S i), s'. repeat split; [exact Hnth | exact Hid |].
        cbn [firstn]. constructor; assumption.
Qed.

Lemma after_the_match : forall l ns m i s,
  ids_are l ns -> NoDup ns -> first_match l m i s ->
  Forall (other_id m) (skipn (S i) l).
Proof.
  intros l ns m i s H. revert i.
  induction H as [| s0 n l ns Hs0 Hrest IH]; intros i Hnodup
    (Hnth & Hid & Hbefore).
  - destruct i; discriminate.
  - inversion Hnodup as [| n' ns' Hnotin Hnodup']; subst.
    destruct i as [| i].
    + injection Hnth as ->. rewrite Hid in Hs0. injection Hs0 as ->.
      cbn [skipn]. eapply ids_without_marker; eassumption.
    + cbn [skipn]. apply IH; [exact Hnodup' |].
      cbn [firstn] in Hbefore. inversion Hbefore; subst.
      repeat split; assumption.
Qed.

(** X4: when the ids of the descriptor list are pairwise distinct integers
    and the ledger ends with an integer, the resume computation returns a
    list in which no descriptor has the id of the last failure, and which
    a second resume computation against the same ledger returns
    unchanged. *)
Theorem X4_distinct_ids_drop_the_failed_song : forall o failed_ids_txt l ns m,
  _get_last_failed_id failed_ids_txt = Ok (Some m) ->
  ids_are l ns ->
  NoDup ns ->
  exists r t,
    exec o (get_resume_song_info_list failed_ids_txt l) = (Ok r, t) /\
    (forall s, In s r -> Py.int (id s) <> Ok m) /\
    exec o (get_resume_song_info_list failed_ids_txt r) =
      (Ok r, [EPrint MsgNoMatch]).
Proof.
  intros o failed_ids_txt l ns m Hm Hids Hnodup.
  assert (Hkeep : forall r, Forall (other_id m) r ->
            (forall s, In s r -> Py.int (id s) <> Ok m) /\
            exec o (get_resume_song_info_list failed_ids_txt r) =
              (Ok r, [EPrint MsgNoMatch])).
  { intros r Hr. split.
    - intros s Hin Heq. rewrite Forall_forall in Hr.
      destruct (Hr s Hin) as (n & Hn & Hne). congruence.
    - unfold get_resume_song_info_list. rewrite Hm. cbn [lift bind].
      apply resume_scan_no_match, Hr. }
  destruct (match_or_none m Hids) as [Hall | (i & s & Hfirst)].
  - exists l, [EPrint MsgNoMatch]. split; [| apply Hkeep, Hall].
    apply Hkeep, Hall.
  - exists (skipn (S i) l), [EPrint (MsgResumeAt (i + 1) (id s))]. split.
    + unfold get_resume_song_info_list. rewrite Hm. cbn [lift bind].
      rewrite (resume_scan_match o l 0 Hfirst).
      replace (0 + i + 1)%nat with (S i) by lia.
      replace (i + 1)%nat with (S i) by lia. reflexivity.
    + apply Hkeep. eapply after_the_match; eassumption.
Qed.

Lemma X4_distinct_ids_drop_the_failed_song_witness :
  exists r t,
    exec remote_holding_all
      (get_resume_song_info_list (Some ["2"%string])
         [song 1; song 2; song 3]) = (Ok r, t) /\
    (forall s, In s r -> Py.int (id s) <> Ok 2%Z) /\
    exec remote_holding_all (get_resume_song_info_list (Some ["2"%string]) r) =
      (Ok r, [EPrint MsgNoMatch]).
Proof.
  apply (@X4_distinct_ids_drop_the_failed_song remote_holding_all
           (Some ["2"%string]) [song 1; song 2; song 3] [1; 2; 3]%Z 2%Z).
  - reflexivity.
  - repeat constructor.
  - repeat constructor; cbn; lia.
Defined.

(** ** The workflow, call by call *)

Lemma send_upload_request_verdict : forall o s a b r t,
  artist s = Some a -> album s = Some b ->
  exec o (_send_upload_request s) = (r, t) ->
  exists t4,
    t = ECall (CloudImport s) :: t4 /\ calls t4 = [] /\
    if leaves_ledger (o (CloudImport s))
    then r = Ok tt /\ appended t4 = []
    else (r = Ok tt /\
          exists t5, t4 = t5 ++ [EAppend (id s)] /\ appended t5 = []) \/
         (exists e, r = Exc e /\ appended t4 = []).
Proof.
  intros o s a b r t Ha Hb H. unfold _send_upload_request in H.
  rewrite Ha, Hb in H. cbn [entry lift bind] in H. unfold leaves_ledger.
  split_cases H; close_trace H;
    repeat match goal with
           | E : _ = _ |- _ => rewrite E
           end;
    cbn [orb];
    eexists; (split; [reflexivity |]); (split; [reflexivity |]);
    try (split; reflexivity);
    try (right; eexists; split; reflexivity).
  left. split; [reflexivity |].
  exists [EPrint (MsgImportFailed (id s) a1); EPrint (MsgFileExists (id s))].
  split; reflexivity.
Qed.

(** The calls of [_try_to_upload_one_song]: none when the id is no
    integer; otherwise the existence check, then perhaps the detail lookup,
    and only then [_send_upload_request] on the enriched descriptor. *)
Lemma try_to_upload_calls : forall o s r t,
  exec o (_try_to_upload_one_song s) = (r, t) ->
  (t = [] /\ exists e, r = Exc e) \/
  exists n, Py.int (id s) = Ok n /\
    ((calls t = [CloudDetail n] /\ appended t = []) \/
     (calls t = [CloudDetail n; SongDetail [n]] /\ appended t = []) \/
     (exists a b t0 t3,
        t = t0 ++ t3 /\
        calls t0 = [CloudDetail n; SongDetail [n]] /\ appended t0 = [] /\
        exec o (_send_upload_request (with_details s a b)) = (r, t3))).
Proof.
  intros o s r t H. unfold _try_to_upload_one_song in H.
  destruct (Py.int (id s)) as [n | e]; cbn [lift bind print] in H.
  2: { left. close_trace H. split; [reflexivity | eauto]. }
  right. exists n. split; [reflexivity |].
  cbn [exec] in H. rewrite exec_bind in H.
  destruct (exec o (_has_uploaded n)) as [[uploaded | e] t1] eqn:Ehas;
    apply has_uploaded_trace in Ehas as [Hc1 Ha1].
  2: { left. injection H as <- <-. cbn [calls appended]. auto. }
  destruct uploaded.
  { left. cbn in H. injection H as <- <-. cbn [calls appended].
    rewrite appended_app, calls_app, Hc1, Ha1. auto. }
  rewrite exec_bind in H.
  destruct (exec o (get_song_details [n])) as [[details | e] t2] eqn:Edet;
    apply song_details_trace in Edet as [Hc2 Ha2].
  2: { right. left. injection H as <- <-. cbn [calls appended].
       rewrite appended_app, calls_app, Hc1, Ha1, Hc2, Ha2. auto. }
  assert (Hpre : calls (EPrint (MsgImporting n) :: t1 ++ t2) =
                   [CloudDetail n; SongDetail [n]] /\
                 appended (EPrint (MsgImporting n) :: t1 ++ t2) = []).
  { cbn [calls appended]. rewrite appended_app, calls_app, Hc1, Ha1, Hc2, Ha2.
    auto. }
  destruct Hpre as [Hpc Hpa].
  destruct (Py.truthy details).
  2: { right. left. cbn in H. injection H as <- <-. rewrite app_nil_r. auto. }
  repeat match type of H with
         | context [lift ?x] =>
             destruct x eqn:?; cbn [lift bind print exec] in H
         end.
  all: try (right; left; injection H as <- <-; rewrite !app_nil_r; auto; fail).
  right. right.
  match type of H with
  | context [_send_upload_request ?s'] =>
      destruct (exec o (_send_upload_request s')) as [r3 t3] eqn:Esend
  end.
  injection H as <- <-.
  match type of Esend with
  | exec o (_send_upload_request (with_details s ?a ?b)) = _ =>
      exists a, b, (EPrint (MsgImporting n) :: t1 ++ t2 ++
                    [EPrint (MsgSongDetail a0 a b)]), t3
  end.
  split; [cbn [app]; rewrite <- !app_assoc; reflexivity |].
  split; [| split; [| exact Esend]].
  - cbn [calls]. rewrite !calls_app, Hc1, Hc2. reflexivity.
  - cbn [appended]. rewrite !appended_app, Ha1, Ha2. reflexivity.
Qed.

(** The whole of [_upload_one_song]: it returns; an append, if there is
    one, is of the song's id and is the last event; and the calls are a
    prefix of existence check, detail lookup, import request. *)
Lemma upload_one_song_anatomy : forall o s r t,
  exec o (_upload_one_song s) = (r, t) ->
  r = Ok tt /\
  (appended t = [] \/
   exists t', t = t' ++ [EAppend (id s)] /\ appended t' = []) /\
  (calls t = [] \/
   exists n, Py.int (id s) = Ok n /\
     (calls t = [CloudDetail n] \/
      calls t = [CloudDetail n; SongDetail [n]] \/
      exists a b,
        calls t = [CloudDetail n; SongDetail [n];
                   CloudImport (with_details s a b)] /\
        appended t =
          if leaves_ledger (o (CloudImport (with_details s a b)))
          then [] else [id s])).
Proof.
  intros o s r t H. unfold _upload_one_song in H.
  rewrite exec_try_except in H.
  destruct (exec o (_try_to_upload_one_song s)) as [r0 t0] eqn:E.
  assert (Hcaught : forall e, r0 = Exc e ->
            r = Ok tt /\
            t = t0 ++ [EPrint (MsgUploadException e); EAppend (id s)]).
  { intros e ->. cbn [exec bind print _save_failed_id] in H.
    injection H as <- <-. auto. }
  assert (Hpassed : r0 = Ok tt -> r = Ok tt /\ t = t0).
  { intros ->. injection H as <- <-. auto. }
  clear H.
  destruct (try_to_upload_calls o s E)
    as [[-> [e ->]] | (n & Hn & [[Hc Ha] | [[Hc Ha] | Himport]])].
  - destruct (Hcaught e eq_refl) as [-> ->]. split; [reflexivity |].
    split; [right; exists [EPrint (MsgUploadException e)]; auto | left; auto].
  - assert (Hboth : r = Ok tt /\
              (t = t0 \/
               exists e, t = t0 ++ [EPrint (MsgUploadException e);
                                    EAppend (id s)])).
    { destruct r0 as [[] | e];
        [destruct (Hpassed eq_refl) | destruct (Hcaught e eq_refl)]; eauto. }
    destruct Hboth as [-> [-> | [e ->]]]; split; try reflexivity.
    + split; [left; exact Ha |]. right. exists n. auto.
    + split.
      * right. exists (t0 ++ [EPrint (MsgUploadException e)]).
        rewrite <- app_assoc, appended_app, Ha. auto.
      * right. exists n. rewrite calls_app, Hc. auto.
  - assert (Hboth : r = Ok tt /\
              (t = t0 \/
               exists e, t = t0 ++ [EPrint (MsgUploadException e);
                                    EAppend (id s)])).
    { destruct r0 as [[] | e];
        [destruct (Hpassed eq_refl) | destruct (Hcaught e eq_refl)]; eauto. }
    destruct Hboth as [-> [-> | [e ->]]]; split; try reflexivity.
    + split; [left; exact Ha |]. right. exists n. auto.
    + split.
      * right. exists (t0 ++ [EPrint (MsgUploadException e)]).
        rewrite <- app_assoc, appended_app, Ha. auto.
      * right. exists n. rewrite calls_app, Hc. auto.
  - destruct Himport as (a & b & t1 & t3 & -> & Hc & Ha & Hsend).
    destruct (send_upload_request_verdict o (with_details s a b)
                eq_refl eq_refl Hsend) as (t4 & -> & Hc4 & Hverdict).
    cbn [id with_details] in Hverdict.
    assert (Hcalls : forall tail, calls tail = [] ->
              calls ((t1 ++ ECall (CloudImport (with_details s a b)) :: t4)
                     ++ tail) =
              [CloudDetail n; SongDetail [n];
               CloudImport (with_details s a b)]).
    { intros tail Htail. rewrite !calls_app. cbn [calls].
      rewrite Hc, Hc4, Htail. reflexivity. }
    destruct (leaves_ledger (o (CloudImport (with_details s a b))))
      eqn:Hleaves.
    + destruct Hverdict as [-> Ha4]. destruct (Hpassed eq_refl) as [-> ->].
      assert (Hnone : appended
                (t1 ++ ECall (CloudImport (with_details s a b)) :: t4) = []).
      { rewrite appended_app. cbn [appended]. rewrite Ha, Ha4. reflexivity. }
      split; [reflexivity |]. split; [left; exact Hnone |].
      right. exists n. split; [exact Hn |]. right. right. exists a, b.
      rewrite Hleaves. split; [| exact Hnone].
      rewrite <- (app_nil_r (t1 ++ _)). apply Hcalls. reflexivity.
    + destruct Hverdict as [[-> (t5 & -> & Ha5)] | (e & -> & Ha4)].
      * destruct (Hpassed eq_refl) as [-> ->].
        split; [reflexivity |]. split.
        -- right.
           exists (t1 ++ ECall (CloudImport (with_details s a b)) :: t5).
           rewrite <- app_assoc. split; [reflexivity |].
           rewrite appended_app. cbn [appended]. rewrite Ha, Ha5. reflexivity.
        -- right. exists n. split; [exact Hn |]. right. right. exists a, b.
           rewrite Hleaves. split.
           ++ rewrite <- (app_nil_r (t1 ++ _)). apply Hcalls. reflexivity.
           ++ rewrite !appended_app. cbn [appended].
              rewrite appended_app, Ha, Ha5. reflexivity.
      * destruct (Hcaught e eq_refl) as [-> ->].
        assert (Hnone : appended
                  (t1 ++ ECall (CloudImport (with_details s a b)) :: t4) = []).
        { rewrite appended_app. cbn [appended]. rewrite Ha, Ha4. reflexivity. }
        split; [reflexivity |]. split.
        -- right.
           exists ((t1 ++ ECall (CloudImport (with_details s a b)) :: t4)
                   ++ [EPrint (MsgUploadException e)]).
           rewrite <- !app_assoc. split; [reflexivity |].
           rewrite app_assoc, appended_app, Hnone. reflexivity.
        -- right. exists n. split; [exact Hn |]. right. right. exists a, b.
           rewrite Hleaves. split; [apply Hcalls; reflexivity |].
           rewrite appended_app, Hnone. reflexivity.
Qed.

Lemma import_request_of : forall o s s' r t,
  exec o (_upload_one_song s) = (r, t) ->
  In (ECall (CloudImport s')) t ->
  exists n,
    Py.int (id s) = Ok n /\
    calls t = [CloudDetail n; SongDetail [n]; CloudImport s'] /\
    appended t = if leaves_ledger (o (CloudImport s')) then [] else [id s].
Proof.
  intros o s s' r t H Hin. apply in_calls in Hin.
  destruct (upload_one_song_anatomy o s H)
    as (_ & _ & [Hc | (n & Hn & [Hc | [Hc | (a & b & Hc & Ha)]])]);
    rewrite Hc in Hin; cbn [In] in Hin;
    repeat (destruct Hin as [Hin | Hin]; try discriminate Hin);
    try contradiction.
  injection Hin as <-. exists n. auto.
Qed.

Lemma reports_success_leaves_ledger : forall response,
  reports_success response -> leaves_ledger response = true.
Proof.
  intros response (response_data & success_songs & -> & Hsucc & Htruthy).
  unfold leaves_ledger. rewrite Hsucc, Htruthy.
  unfold data_field in *.
  destruct (Py.get response_data "data" (JObj [])) as [data | e];
    [| discriminate].
  destruct data; try discriminate. cbn [Py.get].
  destruct (Py.assoc "failed" fields); reflexivity.
Qed.

(** X5: a workflow whose import request is answered with a successful song
    returns after exactly three remote calls, the existence check, the
    detail lookup and the import request, in this order, and appends
    nothing to the ledger. *)
Theorem X5_imported_song_makes_three_calls : forall o s s' r t,
  exec o (_upload_one_song s) = (r, t) ->
  In (ECall (CloudImport s')) t ->
  reports_success (o (CloudImport s')) ->
  r = Ok tt /\
  appended t = [] /\
  exists n,
    Py.int (id s) = Ok n /\
    calls t = [CloudDetail n; SongDetail [n]; CloudImport s'].
Proof.
  intros o s s' r t H Hin Hsucc.
  destruct (@import_request_of o s s' r t H Hin) as (n & Hn & Hc & Ha).
  rewrite (reports_success_leaves_ledger Hsucc) in Ha.
  destruct (upload_one_song_anatomy o s H) as (-> & _).
  split; [reflexivity |]. split; [exact Ha |]. exists n. auto.
Qed.

(** X6: for a workflow that sent its import request, the reply alone
    decides the ledger: nothing is appended when it reports a successful
    song or lists a failure of another code than -100 ahead of anything
    that cannot be tested; in every other case, a reply that cannot be
    decoded or has another shape included, the song's id is appended
    once. *)
Theorem X6_import_reply_decides_the_append : forall o s s' r t,
  exec o (_upload_one_song s) = (r, t) ->
  In (ECall (CloudImport s')) t ->
  appended t = if leaves_ledger (o (CloudImport s')) then [] else [id s].
Proof.
  intros o s s' r t H Hin.
  destruct (@import_request_of o s s' r t H Hin) as (n & _ & _ & Ha).
  exact Ha.
Qed.

(** X7: the remote calls of a workflow are, in this order, the existence
    check, the detail lookup and the import request of the enriched
    descriptor, or a prefix of these; no call is made twice and none for
    another id than the song's. *)
Theorem X7_calls_come_in_order : forall o s,
  calls (snd (exec o (_upload_one_song s))) = [] \/
  exists n, Py.int (id s) = Ok n /\
    (calls (snd (exec o (_upload_one_song s))) = [CloudDetail n] \/
     calls (snd (exec o (_upload_one_song s))) =
       [CloudDetail n; SongDetail [n]] \/
     exists a b,
       calls (snd (exec o (_upload_one_song s))) =
         [CloudDetail n; SongDetail [n]; CloudImport (with_details s a b)]).
Proof.
  intros o s. destruct (exec o (_upload_one_song s)) as [r t] eqn:H.
  destruct (upload_one_song_anatomy o s H)
    as (_ & _ & [Hc | (n & Hn & [Hc | [Hc | (a & b & Hc & _)]])]);
    cbn [snd]; [left; exact Hc | right; exists n; split; [exact Hn |] ..].
  - left. exact Hc.
  - right. left. exact Hc.
  - right. right. exists a, b. exact Hc.
Qed.

(** X8: a workflow appends to the ledger at most once, what it appends is
    the song's id, and the append is the last thing it does. *)
Theorem X8_append_comes_last : forall o s,
  appended (snd (exec o (_upload_one_song s))) = [] \/
  exists t',
    snd (exec o (_upload_one_song s)) = t' ++ [EAppend (id s)] /\
    appended t' = [].
Proof.
  intros o s. destruct (exec o (_upload_one_song s)) as [r t] eqn:H.
  destruct (upload_one_song_anatomy o s H) as (_ & Ha & _). exact Ha.
Qed.

Lemma X5_imported_song_makes_three_calls_witness :
  Ok tt = Ok tt /\
  appended (snd (exec (remote_answering (Json accept_reply))
                   (_upload_one_song (song 3)))) = [] /\
  exists n,
    Py.int (id (song 3)) = Ok n /\
    calls (snd (exec (remote_answering (Json accept_reply))
                  (_upload_one_song (song 3)))) =
      [CloudDetail n; SongDetail [n];
       CloudImport (with_details (song 3) (JStr "a") (JStr "b"))].
Proof.
  apply (@X5_imported_song_makes_three_calls
           (remote_answering (Json accept_reply)) (song 3)
           (with_details (song 3) (JStr "a") (JStr "b")) (Ok tt)
           (snd (exec (remote_answering (Json accept_reply))
                   (_upload_one_song (song 3))))).
  - reflexivity.
  - cbn. tauto.
  - exists accept_reply, (JArr [JObj [("songId"%string, JInt 3)]]).
    repeat split.
Defined.

Lemma X6_import_reply_decides_the_append_witness :
  appended (snd (exec (remote_answering NotJson) (_upload_one_song (song 3)))) =
    [id (song 3)].
Proof.
  apply (@X6_import_reply_decides_the_append (remote_answering NotJson)
           (song 3) (with_details (song 3) (JStr "a") (JStr "b")) (Ok tt)
           (snd (exec (remote_answering NotJson) (_upload_one_song (song 3))))).
  - reflexivity.
  - cbn. tauto.
Defined.

(** X9: when the existence check is answered with code 200 and no data
    entry, [response_data["data"]] raises [KeyError], which the handler of
    [_has_uploaded] does not catch: the workflow makes no further call,
    prints the exception and appends the song's id. *)
Theorem X9_existence_reply_without_data : forall o s n fields code,
  Py.int (id s) = Ok n ->
  o (CloudDetail n) = Json (JObj fields) ->
  Py.assoc "code" fields = Some code ->
  Py.eq_int code 200 = true ->
  Py.assoc "data" fields = None ->
  exec o (_upload_one_song s) =
    (Ok tt, [EPrint (MsgImporting n); ECall (CloudDetail n);
             EPrint (MsgUploadException KeyError); EAppend (id s)]).
Proof.
  intros o s n fields code Hn Hreply Hcode H200 Hdata.
  unfold _upload_one_song, _try_to_upload_one_song, _has_uploaded.
  rewrite Hn. cbn [lift bind print try_except exec]. rewrite Hreply.
  cbn [Py.get Py.item lift bind]. rewrite Hcode. cbn [lift bind].
  rewrite H200, Hdata. reflexivity.
Qed.

Lemma X9_existence_reply_without_data_witness :
  exec remote_without_data (_upload_one_song (song 6)) =
    (Ok tt, [EPrint (MsgImporting 6); ECall (CloudDetail 6);
             EPrint (MsgUploadException KeyError); EAppend (id (song 6))]).
Proof.
  apply (@X9_existence_reply_without_data remote_without_data (song 6) 6%Z
           [("code"%string, JInt 200)] (JInt 200)); reflexivity.
Defined.




(** ** From the catalog to the descriptors *)

Lemma all_song_info_objects : forall songs,
  forallb is_object songs = true ->
  exists infos,
    all_song_info songs = Ok infos /\ Forall2 describes songs infos.
Proof.
  induction songs as [| song songs IH]; intros H.
  - exists []. split; [reflexivity | constructor].
  - cbn [forallb] in H. apply andb_prop in H as [Hsong Hrest].
    destruct (IH Hrest) as (infos & Hinfos & Hdesc).
    destruct song; try discriminate. cbn [all_song_info Py.get].
    rewrite Hinfos.
    destruct (Py.assoc "id" fields) eqn:Eid,
      (Py.assoc "size" fields) eqn:Esize,
      (Py.assoc "ext" fields) eqn:Eext,
      (Py.assoc "bitrate" fields) eqn:Ebitrate,
      (Py.assoc "md5" fields) eqn:Emd5;
      (eexists; split; [reflexivity |]; constructor; [| exact Hdesc];
       unfold describes; cbn [Py.get id size ext bitrate md5 artist album];
       rewrite Eid, Esize, Eext, Ebitrate, Emd5; repeat split).
Qed.

Lemma all_song_info_other : forall songs,
  forallb is_object songs = false ->
  all_song_info songs = Exc AttributeError.
Proof.
  induction songs as [| song songs IH]; intros H; [discriminate |].
  cbn [forallb] in H. destruct song; cbn [is_object andb] in H;
    try reflexivity.
  cbn [all_song_info Py.get]. rewrite (IH H).
  destruct (Py.assoc "id" fields), (Py.assoc "size" fields),
    (Py.assoc "ext" fields), (Py.assoc "bitrate" fields),
    (Py.assoc "md5" fields); reflexivity.
Qed.

(** X11: when the catalog decodes to an object whose data entry is a list
    of objects (an absent entry counts as the empty list), with no ledger
    file [upload] hands to the run one descriptor per record, in the order
    of the catalog, each with the five entries of its record, [None] for
    those the record lacks. *)
Theorem X11_descriptors_follow_the_catalog : forall o data songs,
  Py.get data "data" (JArr []) = Ok (JArr songs) ->
  forallb is_object songs = true ->
  exists infos,
    Forall2 describes songs infos /\
    get_all_song_info (JArr songs) = Ok infos /\
    exec o (upload_list (Json data) None) =
      (Ok infos, [EPrint MsgNoFailureRecord]).
Proof.
  intros o data songs Hdata Hobjects.
  destruct (all_song_info_objects songs Hobjects) as (infos & Hinfos & Hdesc).
  exists infos. split; [exact Hdesc |]. split; [exact Hinfos |].
  unfold upload_list. cbn [_read_songs_data]. rewrite Hdata.
  cbn [lift bind get_all_song_info Py.iter]. rewrite Hinfos. reflexivity.
Qed.

Lemma X11_descriptors_follow_the_catalog_witness :
  exists infos,
    Forall2 describes
      [JObj [("id", JInt 1); ("size", JInt 9); ("ext", JStr "mp3");
             ("bitrate", JInt 320); ("md5", JStr "ab")];
       JObj [("size", JInt 7)]]%string infos /\
    get_all_song_info
      (JArr [JObj [("id", JInt 1); ("size", JInt 9); ("ext", JStr "mp3");
                   ("bitrate", JInt 320); ("md5", JStr "ab")];
             JObj [("size", JInt 7)]]%string) = Ok infos /\
    exec remote_holding_all (upload_list (Json small_catalog) None) =
      (Ok infos, [EPrint MsgNoFailureRecord]).
Proof.
  apply (@X11_descriptors_follow_the_catalog remote_holding_all small_catalog);
    reflexivity.
Defined.

(** X12: when the data list of the catalog holds a record that is not an
    object, [song.get] raises [AttributeError]: [upload] stops before the
    ledger is read, with nothing printed, whatever the ledger holds. *)
Theorem X12_record_that_is_no_object : forall o data songs failed_ids_txt,
  Py.get data "data" (JArr []) = Ok (JArr songs) ->
  forallb is_object songs = false ->
  exec o (upload_list (Json data) failed_ids_txt) = (Exc AttributeError, []).
Proof.
  intros o data songs failed_ids_txt Hdata Hother.
  unfold upload_list. cbn [_read_songs_data]. rewrite Hdata.
  cbn [lift bind get_all_song_info Py.iter].
  rewrite (all_song_info_other songs Hother). reflexivity.
Qed.

Lemma X12_record_that_is_no_object_witness :
  exec remote_holding_all (upload_list (Json broken_catalog) None) =
    (Exc AttributeError, []).
Proof.
  apply (@X12_record_that_is_no_object remote_holding_all broken_catalog
           [JObj [("id"%string, JInt 1)]; JInt 2] None); reflexivity.
Defined.

(** ** What a run writes and whom it calls *)

Lemma fire_step : forall o i st st', fire o i st = Some st' -> step o st st'.
Proof.
  intros o i st st' H. unfold fire in H.
  destruct (nth_error (tasks st) i) as [[p | c k | | e] |] eqn:Hi;
    try discriminate.
  - destruct (Nat.ltb_spec 0 (sem st)) as [Hsem | _]; [| discriminate].
    destruct (advance (o i) p) as [x t] eqn:Hadv. injection H as <-.
    eapply step_enter; eassumption.
  - destruct (advance (o i) (k (o i c))) as [x t] eqn:Hadv. injection H as <-.
    eapply step_resume; eassumption.
Qed.

Lemma run_schedule_steps : forall o schedule st st',
  run_schedule o schedule st = Some st' -> steps o st st'.
Proof.
  intros o schedule. induction schedule as [| i rest IH]; intros st st' H;
    cbn [run_schedule] in H.
  - injection H as <-. apply steps_refl.
  - destruct (fire o i st) as [st1 |] eqn:Hfire; [| discriminate].
    eapply steps_cons; [eapply fire_step, Hfire | apply IH, H].
Qed.

Lemma log_indices : forall o songs k st,
  steps o (_async_upload_songs songs k) st ->
  forall i e, In (i, e) (log st) -> (i < List.length songs)%nat.
Proof.
  intros o songs k st H.
  pose proof (run_invariant_steps H) as Hinv. revert Hinv.
  remember (_async_upload_songs songs k) as st0 eqn:E.
  induction H as [st | st st' st'' H IH Hstep]; intros Hinv i e Hin; subst.
  - destruct Hin.
  - pose proof (run_invariant_steps H) as (_ & Hlen & _).
    assert (Hnew : forall j t x,
              nth_error (tasks st') j = Some x ->
              In (i, e) (log st' ++ tag j t) -> (i < List.length songs)%nat).
    { intros j t x Hj Hin'. apply in_app_or in Hin' as [Hold | Hnew].
      - eapply IH; eauto. apply run_invariant_steps, H.
      - unfold tag in Hnew. apply in_map_iff in Hnew as (e' & Heq & _).
        injection Heq as <- _. rewrite <- Hlen. apply nth_error_Some.
        congruence. }
    destruct Hstep as [st' j p x t Hj _ _ | st' j c kk x t Hj _];
      cbn [log] in Hin; eapply Hnew; eassumption.
Qed.

Lemma in_events_of : forall i e l, In (i, e) l -> In e (events_of i l).
Proof.
  intros i e l H. unfold events_of. apply in_map_iff. exists (i, e).
  split; [reflexivity |]. apply filter_In. split; [exact H |].
  apply Nat.eqb_refl.
Qed.

Lemma in_appended : forall v t, In (EAppend v) t -> In v (appended t).
Proof.
  intros v t. induction t as [| [m | c | v'] t IH]; cbn [appended In];
    intros H; [destruct H | ..]; destruct H as [H | H];
    try discriminate; auto.
  injection H as ->. left. reflexivity.
Qed.

(** The events that coroutine [i] has produced so far begin the trace of
    the workflow of song [i]. *)
Lemma events_begin_the_workflow : forall o songs k st i e,
  steps o (_async_upload_songs songs k) st ->
  In (i, e) (log st) ->
  exists s rest,
    nth_error songs i = Some s /\
    snd (exec (o i) (_upload_one_song s)) = events_of i (log st) ++ rest.
Proof.
  intros o songs k st i e H Hin.
  pose proof (log_indices H i e Hin) as Hlt.
  destruct (nth_error songs i) as [s |] eqn:Hs;
    [| apply nth_error_None in Hs; lia].
  destruct (run_invariant_steps H) as (_ & _ & Href & _).
  destruct (Href i s Hs) as (x & _ & Hexec).
  exists s, (snd (remainder (o i) x)). rewrite Hexec. auto.
Qed.

(** X14: whatever the schedule and the replies, a line that a run appends
    to the ledger is the id of the song whose workflow appended it, and no
    workflow of the run has appended twice. *)
Theorem X14_ledger_lines_of_a_run : forall o songs k st i v,
  steps o (_async_upload_songs songs k) st ->
  In (i, EAppend v) (log st) ->
  exists s,
    nth_error songs i = Some s /\ v = id s /\
    appended (events_of i (log st)) = [id s].
Proof.
  intros o songs k st i v H Hin.
  destruct (events_begin_the_workflow i (EAppend v) H Hin)
    as (s & rest & Hs & Htrace).
  apply in_events_of, in_appended in Hin.
  destruct (upload_one_song_returns (o i) s) as (t & Hexec & Ha).
  rewrite Hexec in Htrace. cbn [snd] in Htrace. subst t.
  rewrite appended_app in Ha.
  destruct (appended (events_of i (log st))) as [| v0 others];
    [destruct Hin |].
  destruct Ha as [Ha | Ha]; [discriminate |].
  cbn [app] in Ha. injection Ha as -> Hnil.
  apply app_eq_nil in Hnil as [-> _].
  destruct Hin as [<- | []]. exists s. auto.
Qed.

Lemma one_failed_reachable :
  steps (fun _ => remote_down) (_async_upload_songs [song 4] 1) one_failed.
Proof.
  apply (@run_schedule_steps (fun _ => remote_down) [0; 0]%nat).
  reflexivity.
Qed.

Lemma X14_ledger_lines_of_a_run_witness :
  exists s,
    nth_error [song 4] 0 = Some s /\ JInt 4 = id s /\
    appended (events_of 0 (log one_failed)) = [id s].
Proof.
  apply (@X14_ledger_lines_of_a_run (fun _ => remote_down) [song 4] 1%nat
           one_failed 0%nat (JInt 4) one_failed_reachable).
  cbn. tauto.
Defined.

Lemma run_call_in_workflow : forall o songs k st i c,
  steps o (_async_upload_songs songs k) st ->
  In (i, ECall c) (log st) ->
  exists s,
    nth_error songs i = Some s /\
    In c (calls (snd (exec (o i) (_upload_one_song s)))).
Proof.
  intros o songs k st i c H Hin.
  destruct (events_begin_the_workflow i (ECall c) H Hin)
    as (s & rest & Hs & Htrace).
  exists s. split; [exact Hs |].
  apply in_calls. rewrite Htrace. apply in_or_app. left.
  apply in_events_of, Hin.
Qed.

(** X15: whatever the schedule and the replies, every remote call of a
    run is made by the workflow of one of its songs and is that song's
    existence check, detail lookup or import request: no call is made for
    a song that is not in the list handed to the run. *)
Theorem X15_calls_of_a_run : forall o songs k st i c,
  steps o (_async_upload_songs songs k) st ->
  In (i, ECall c) (log st) ->
  exists s n,
    nth_error songs i = Some s /\ Py.int (id s) = Ok n /\
    (c = CloudDetail n \/ c = SongDetail [n] \/
     exists a b, c = CloudImport (with_details s a b)).
Proof.
  intros o songs k st i c H Hin.
  destruct (@run_call_in_workflow o songs k st i c H Hin) as (s & Hs & Hcall).
  destruct (exec (o i) (_upload_one_song s)) as [r t] eqn:Hexec.
  cbn [snd] in Hcall.
  destruct (upload_one_song_anatomy (o i) s Hexec)
    as (_ & _ & [Hc | (n & Hn & [Hc | [Hc | (a & b & Hc & _)]])]);
    rewrite Hc in Hcall; cbn [In] in Hcall; [contradiction | ..];
    exists s, n; (split; [exact Hs |]); (split; [exact Hn |]).
  - destruct Hcall as [<- | []]. auto.
  - destruct Hcall as [<- | [<- | []]]; auto.
  - destruct Hcall as [<- | [<- | [<- | []]]]; eauto.
Qed.

Lemma one_entered_reachable :
  steps (fun _ => remote_holding_all)
    (_async_upload_songs [song 1; song 2] 1) one_entered.
Proof.
  apply (@run_schedule_steps (fun _ => remote_holding_all) [0%nat]).
  reflexivity.
Qed.

Lemma X15_calls_of_a_run_witness :
  exists s n,
    nth_error [song 1; song 2] 0 = Some s /\ Py.int (id s) = Ok n /\
    (CloudDetail 1 = CloudDetail n \/ CloudDetail 1 = SongDetail [n] \/
     exists a b, CloudDetail 1 = CloudImport (with_details s a b)).
Proof.
  apply (@X15_calls_of_a_run (fun _ => remote_holding_all) [song 1; song 2]
           1%nat one_entered 0%nat (CloudDetail 1) one_entered_reachable).
  cbn. tauto.
Defined.

(** X16: a semaphore of value 0 never lets a coroutine in: the run takes no
    step at all, and with a song to upload it never completes. *)
Theorem X16_no_permit_no_progress : forall o songs st,
  steps o (_async_upload_songs songs 0) st ->
  st = _async_upload_songs songs 0 /\
  (forall st', ~ step o st st') /\
  (songs <> [] -> ~ completed st).
Proof.
  intros o songs st H.
  assert (Hstuck : forall st', ~ step o (_async_upload_songs songs 0) st').
  { intros st' Hstep.
    inversion Hstep as [st0 i p x t Hi Hsem _ | st0 i c kk x t Hi _]; subst.
    - cbn in Hsem. lia.
    - cbn [_async_upload_songs tasks] in Hi.
      rewrite nth_error_map in Hi.
      destruct (nth_error songs i); discriminate. }
  assert (Hsame : st = _async_upload_songs songs 0).
  { induction H as [st | st st' st'' H IH Hstep]; [reflexivity |].
    specialize (IH Hstuck). subst st'. destruct (Hstuck _ Hstep). }
  subst st. split; [reflexivity |]. split; [exact Hstuck |].
  intros Hsongs Hdone. destruct songs as [| s songs]; [congruence |].
  discriminate.
Qed.

Lemma X16_no_permit_no_progress_witness :
  _async_upload_songs [song 1] 0 = _async_upload_songs [song 1] 0 /\
  (forall st',
     ~ step (fun _ => remote_holding_all) (_async_upload_songs [song 1] 0) st') /\
  ([song 1] <> [] -> ~ completed (_async_upload_songs [song 1] 0)).
Proof.
  apply (@X16_no_permit_no_progress (fun _ => remote_holding_all) [song 1]
           (_async_upload_songs [song 1] 0)).
  apply steps_refl.
Defined.

(** ** From one run to the next *)

(** X17: when a run has saved the integer id of a song as the last line of
    the ledger, the next run over a catalog in which that id first occurs
    at index [i] resumes with the songs after index [i], whatever the
    ledger held before the save. *)
Theorem X17_next_run_resumes_after_the_saved_song : forall o failed_ids_txt l
    n i s,
  ends_clean failed_ids_txt ->
  first_match l n i s ->
  exec o (get_resume_song_info_list (ledger_after_save failed_ids_txt n) l) =
    (Ok (skipn (i + 1) l), [EPrint (MsgResumeAt (i + 1) (id s))]).
Proof.
  intros o failed_ids_txt l n i s Hclean Hfirst.
  destruct (@ledger_after_save_last failed_ids_txt n Hclean) as (lines & ->).
  unfold get_resume_song_info_list.
  rewrite get_last_failed_id_ledger_line. cbn [lift bind].
  apply (resume_scan_match o l 0 Hfirst).
Qed.

Lemma X17_next_run_resumes_after_the_saved_song_witness :
  exec remote_holding_all
    (get_resume_song_info_list (ledger_after_save scribbled_ledger 2)
       [song 1; song 2; song 3]) =
    (Ok [song 3], [EPrint (MsgResumeAt 2 (JInt 2))]).
Proof.
  apply (@X17_next_run_resumes_after_the_saved_song remote_holding_all
           scribbled_ledger [song 1; song 2; song 3] 2%Z 1%nat (song 2)).
  - reflexivity.
  - split; [reflexivity | split; [reflexivity |]].
    constructor; [| constructor].
    exists 1%Z. split; [reflexivity | discriminate].
Defined.

(** ** The song that failed last *)

Lemma resumed_without_marker : forall o failed_ids_txt l ns m r t,
  _get_last_failed_id failed_ids_txt = Ok (Some m) ->
  ids_are l ns ->
  NoDup ns ->
  exec o (get_resume_song_info_list failed_ids_txt l) = (Ok r, t) ->
  Forall (other_id m) r.
Proof.
  intros o failed_ids_txt l ns m r t Hm Hids Hnodup H.
  unfold get_resume_song_info_list in H. rewrite Hm in H.
  cbn [lift bind] in H.
  destruct (match_or_none m Hids) as [Hall | (i & s & Hfirst)].
  - rewrite (resume_scan_no_match o l 0 Hall) in H. injection H as <- _.
    exact Hall.
  - rewrite (resume_scan_match o l 0 Hfirst) in H. injection H as <- _.
    replace (0 + i + 1)%nat with (S i) by lia.
    replace (i + 1)%nat with (S i) by lia.
    eapply after_the_match; eassumption.
Qed.

(** X19: with pairwise distinct integer ids in the catalog, the run that
    follows a resume computation never contacts the remote about the song
    that failed last: no existence check, no detail lookup and no import
    request of that run carries its id. *)
Theorem X19_failed_song_is_not_retried : forall o0 o failed_ids_txt l ns m r
    t k st i c,
  _get_last_failed_id failed_ids_txt = Ok (Some m) ->
  ids_are l ns ->
  NoDup ns ->
  exec o0 (get_resume_song_info_list failed_ids_txt l) = (Ok r, t) ->
  steps o (_async_upload_songs r k) st ->
  In (i, ECall c) (log st) ->
  c <> CloudDetail m /\ c <> SongDetail [m] /\
  (forall s', c = CloudImport s' -> Py.int (id s') <> Ok m).
Proof.
  intros o0 o failed_ids_txt l ns m r t k st i c Hm Hids Hnodup Hres Hsteps
    Hin.
  pose proof (@resumed_without_marker o0 failed_ids_txt l ns m r t Hm Hids
                Hnodup Hres) as Hother.
  destruct (@run_call_in_workflow o r k st i c Hsteps Hin) as (s & Hs & Hcall).
  rewrite Forall_forall in Hother.
  destruct (Hother s (nth_error_In _ _ Hs)) as (n' & Hn' & Hne).
  destruct (exec (o i) (_upload_one_song s)) as [r' t'] eqn:Hexec.
  cbn [snd] in Hcall.
  assert (Hown : c = CloudDetail n' \/ c = SongDetail [n'] \/
                 exists a b, c = CloudImport (with_details s a b)).
  { destruct (upload_one_song_anatomy (o i) s Hexec)
      as (_ & _ & [Hc | (n & Hn & [Hc | [Hc | (a & b & Hc & _)]])]);
      rewrite Hc in Hcall; cbn [In] in Hcall; [contradiction | ..];
      rewrite Hn in Hn'; injection Hn' as <-.
    - destruct Hcall as [<- | []]. auto.
    - destruct Hcall as [<- | [<- | []]]; auto.
    - destruct Hcall as [<- | [<- | [<- | []]]]; eauto. }
  destruct Hown as [-> | [-> | (a & b & ->)]]; repeat split;
    try discriminate; try congruence.
  intros s' Hs'. injection Hs' as <-. cbn [id with_details]. congruence.
Qed.

Lemma X19_failed_song_is_not_retried_witness :
  CloudDetail 1 <> CloudDetail 9 /\ CloudDetail 1 <> SongDetail [9%Z] /\
  (forall s', CloudDetail 1 = CloudImport s' -> Py.int (id s') <> Ok 9%Z).
Proof.
  apply (@X19_failed_song_is_not_retried remote_holding_all
           (fun _ => remote_holding_all) (Some ["9"%string])
           [song 9; song 1; song 2] [9; 1; 2]%Z 9%Z [song 1; song 2]
           [EPrint (MsgResumeAt 1 (JInt 9))] 1%nat one_entered 0%nat
           (CloudDetail 1)).
  - reflexivity.
  - repeat constructor.
  - repeat constructor; cbn; lia.
  - reflexivity.
  - exact one_entered_reachable.
  - cbn. tauto.
Defined.
